(** * Scheduling and browser-check engine of uptime-kuma (queue mode fork)

    A shallow embedding of
    - [server/queue/queue-manager.js]       (class [QueueManager]),
    - [server/queue/queue-integration.js]   (class [QueueIntegration]),
    - [server/monitor-types/real-browser-monitor-type.js]
    together with the properties of the scheduling specification that
    concern them.

    External collaborators (the BullMQ queue, the redbean store, the
    Playwright browser, [jsonwebtoken]) are not part of the repository; they
    are modelled by their documented contract, and every place where their
    answer is not determined by the program is an explicit input (an oracle)
    of the function that embeds the calling code.  Log calls have no effect
    on control flow and are left out. *)

From Stdlib Require Import ZArith QArith Lia Lqa Ascii String.
From stdpp Require Import base list strings pretty gmap.

Local Open Scope Z_scope.

(** ** Template literals over integers *)

(** A JS template literal renders an integer in decimal, which is what
    stdpp's [pretty] does on [Z]. *)

Definition is_digit (c : ascii) : bool :=
  bool_decide (c ∈ ["0"; "1"; "2"; "3"; "4"; "5"; "6"; "7"; "8"; "9"]%char).


(** The job id built by [`monitor-${monitor.id}-${Date.now()}`]. *)
Definition uniqueJobId (monitorId now : Z) : string :=
  "monitor-" +:+ pretty monitorId +:+ "-" +:+ pretty now.

(** The job name built by [`monitor-${monitor.id}`]. *)
Definition jobName (monitorId : Z) : string := "monitor-" +:+ pretty monitorId.

(** ** Data model *)

(** A row of the [monitor] table, with the fields the engine reads. *)
Record Monitor := {
  m_id : Z;
  m_name : string;
  m_interval : Z;
  m_active : bool;
  m_url : string;
  m_remote_browser : option Z;
  m_user_id : Z }.

(** The configuration store is the [monitor] table. *)
Abbreviation Store := (list Monitor).

(** [R.find("monitor", "active = 1")] *)
Definition R_find_active (db : Store) : list Monitor :=
  filter (λ m, m_active m = true) db.

(** [R.findOne("monitor", "id = ? AND active = 1", [ monitorId ])] *)
Definition R_findOne_active (db : Store) (monitorId : Z) : option Monitor :=
  List.find (λ m, bool_decide (m_id m = monitorId) && m_active m) db.

(** [R.findOne("monitor", "id = ?", [ monitorId ])] *)
Definition R_findOne (db : Store) (monitorId : Z) : option Monitor :=
  List.find (λ m, bool_decide (m_id m = monitorId)) db.

(** *** The BullMQ queue ["monitor-checks"]

    A job is stored under its id.  [Queue.add] without [opts.jobId] draws
    the id from the queue's counter; with [opts.jobId] it uses that id and
    does nothing when a job with that id is already stored.  A job with a
    positive delay is [delayed], otherwise [waiting]; a worker moves it to
    [active], and from there to [completed], back to [delayed] (a retry) or
    to [failed]. *)

Inductive JobId :=
  | AutoId (n : N)
  | CustomId (s : string).

#[global] Instance JobId_eq_dec : EqDecision JobId.
Proof. solve_decision. Defined.

Inductive JobState := waiting | delayed | active | completed | failed.

#[global] Instance JobState_eq_dec : EqDecision JobState.
Proof. solve_decision. Defined.

Record Job := {
  job_id : JobId;
  job_name : string;
  job_monitorId : Z;        (* job.data.monitorId *)
  job_delay : Q;            (* job.opts.delay, milliseconds *)
  job_timestamp : Z;        (* creation time, milliseconds *)
  job_runAt : Q;            (* earliest time a worker may take it *)
  job_attemptsMade : nat;
  job_state : JobState }.

Record JobOpts := {
  o_delay : Q;
  o_jobId : option string }.

Record Queue := {
  q_jobs : list Job;
  q_counter : N }.

(** [defaultJobOptions] of the queue, from the constructor. *)
Record DefaultJobOptions := {
  removeOnComplete : nat;
  removeOnFail : nat;
  attempts : nat;
  backoff_delay : Z }.

Definition defaultJobOptions : DefaultJobOptions :=
  {| removeOnComplete := 100; removeOnFail := 50;
     attempts := 3; backoff_delay := 2000 |}.

Definition outstanding (j : Job) : Prop :=
  job_state j = waiting ∨ job_state j = delayed ∨ job_state j = active.

#[global] Instance outstanding_dec j : Decision (outstanding j).
Proof. unfold outstanding. apply _. Defined.

(** The outstanding jobs of one monitor. *)
Definition jobsOf (monitorId : Z) (q : Queue) : list Job :=
  filter (λ j, job_monitorId j = monitorId ∧ outstanding j) (q_jobs q).

Definition has_job (jid : JobId) (q : Queue) : bool :=
  bool_decide (jid ∈ job_id <$> q_jobs q).

Definition new_job (jid : JobId) (nm : string) (monitorId : Z)
    (o : JobOpts) (now : Z) : Job :=
  {| job_id := jid; job_name := nm; job_monitorId := monitorId;
     job_delay := o_delay o; job_timestamp := now;
     job_runAt := (inject_Z now + o_delay o)%Q;
     job_attemptsMade := 0;
     job_state := if Qle_bool (o_delay o) 0 then waiting else delayed |}.

Definition Queue_add (nm : string) (monitorId : Z) (o : JobOpts) (now : Z)
    (q : Queue) : Queue :=
  match o_jobId o with
  | Some s =>
      if has_job (CustomId s) q then q
      else {| q_jobs := q_jobs q ++ [new_job (CustomId s) nm monitorId o now];
              q_counter := q_counter q |}
  | None =>
      let n := N.succ (q_counter q) in
      {| q_jobs := q_jobs q ++ [new_job (AutoId n) nm monitorId o now];
         q_counter := n |}
  end.

(** One entry of the array given to [Queue.addBulk]. *)
Record BulkJob := {
  b_name : string;
  b_data : Z;
  b_opts : JobOpts }.

Definition Queue_addBulk (bs : list BulkJob) (now : Z) (q : Queue) : Queue :=
  foldl (λ q b, Queue_add (b_name b) (b_data b) (b_opts b) now q) q bs.

(** [Queue.obliterate({ force: true })] deletes every key of the queue. *)
Definition Queue_obliterate (q : Queue) : Queue :=
  {| q_jobs := []; q_counter := 0 |}.

(** [Queue.getJobs([ "waiting", "delayed" ], 0, -1)] *)
Definition Queue_getJobs_pending (q : Queue) : list Job :=
  filter (λ j, job_state j = waiting ∨ job_state j = delayed) (q_jobs q).

(** [job.remove()] *)
Definition Job_remove (jid : JobId) (q : Queue) : Queue :=
  {| q_jobs := filter (λ j, job_id j ≠ jid) (q_jobs q);
     q_counter := q_counter q |}.

(** *** The world the engine runs in *)

(** Calls to collaborators that the properties below talk about. *)
Inductive Call :=
  | NewQueueManager (threw : bool)
  | CallQueueAdd (nm : string) (monitorId : Z) (o : JobOpts) (now : Z)
  | CallObliterate
  | CallAddBulk (bs : list BulkJob) (now : Z)
  | CallJobRemove (jid : JobId)
  | CallPerformCheck (monitorId : Z)
  | CallMonitorStart (monitorId : Z)
  | CallMonitorStop (monitorId : Z)
  | CallSleep (ms : Z)
  | CallGetQueueStats
  | CallQueueClose.

Record World := {
  clock : Z;                         (* Date.now(), milliseconds *)
  db : Store;
  broker : Queue;                    (* the queue held by the broker *)
  monitorList : gmap Z Monitor;      (* server.monitorList, keyed by id *)
  calls : list Call }.

Definition set_clock (t : Z) (w : World) : World :=
  {| clock := t; db := db w; broker := broker w;
     monitorList := monitorList w; calls := calls w |}.

Definition set_broker (q : Queue) (w : World) : World :=
  {| clock := clock w; db := db w; broker := q;
     monitorList := monitorList w; calls := calls w |}.

Definition set_monitorList (l : gmap Z Monitor) (w : World) : World :=
  {| clock := clock w; db := db w; broker := broker w;
     monitorList := l; calls := calls w |}.

Definition call (c : Call) (w : World) : World :=
  {| clock := clock w; db := db w; broker := broker w;
     monitorList := monitorList w; calls := calls w ++ [c] |}.

(** Time passing while an awaited operation runs. *)
Definition elapse (ms : Z) (w : World) : World := set_clock (clock w + ms) w.

(** ** [server/queue/queue-manager.js] *)

Module QueueManager.

(** What [monitorInstance.performCheck(io)] does in one invocation: it
    takes [ms] milliseconds and then returns or throws. *)
Inductive BeatOutcome :=
  | BeatReturns (ms : Z)
  | BeatThrows (ms : Z) (error : string).

(** The value [processMonitorJob] settles with. *)
Inductive JobResult :=
  | Skipped                      (* { status: "skipped", reason: "monitor_not_found" } *)
  | Done (monitorId : Z)         (* { status: "completed", monitorId } *)
  | Thrown (error : string).

(** [x || d] on a number: [0] is the falsy integer. *)
Definition or_default (x d : Z) : Z := if decide (x = 0) then d else x.

(** [scheduleNextCheck(monitor)] *)
Definition scheduleNextCheck (monitor : Monitor) (w : World) : World :=
  let delay := or_default (m_interval monitor) 60 * 1000 in
  let opts := {| o_delay := inject_Z delay;
                 o_jobId := Some (uniqueJobId (m_id monitor) (clock w)) |} in
  let w := call (CallQueueAdd (jobName (m_id monitor)) (m_id monitor) opts (clock w)) w in
  set_broker (Queue_add (jobName (m_id monitor)) (m_id monitor) opts (clock w) (broker w)) w.

(** [executeMonitorBeat(monitor, io)] *)
Definition executeMonitorBeat (monitor : Monitor) (beat : BeatOutcome)
    (w : World) : option string * World :=
  let w := call (CallPerformCheck (m_id monitor)) w in
  match beat with
  | BeatReturns ms => (None, elapse ms w)
  | BeatThrows ms e => (Some e, elapse ms w)
  end.

(** [processMonitorJob(job)] *)
Definition processMonitorJob (job : Job) (beat : BeatOutcome) (w : World)
    : JobResult * World :=
  let monitorId := job_monitorId job in
  match R_findOne_active (db w) monitorId with
  | None => (Skipped, w)
  | Some monitor =>
      match executeMonitorBeat monitor beat w with
      | (Some error, w) => (Thrown error, w)     (* catch: log, rethrow *)
      | (None, w) =>
          let w := scheduleNextCheck monitor w in
          (Done monitorId, w)
      end
  end.

(** [startAllMonitors()]; [random k] is the [k]-th draw of [Math.random()]. *)
Definition startAllMonitors (random : nat → Q) (w : World) : World :=
  let monitors := R_find_active (db w) in
  let w := call CallObliterate w in
  let w := set_broker (Queue_obliterate (broker w)) w in
  let jobs := imap (λ k monitor,
                {| b_name := jobName (m_id monitor);
                   b_data := m_id monitor;
                   b_opts := {| o_delay := (random k * 10000)%Q;
                                o_jobId := Some (uniqueJobId (m_id monitor) (clock w)) |} |})
              monitors in
  let w := call (CallAddBulk jobs (clock w)) w in
  set_broker (Queue_addBulk jobs (clock w) (broker w)) w.

(** [stopMonitor(monitorId)] *)
Definition stopMonitor (monitorId : Z) (w : World) : World :=
  let jobs := Queue_getJobs_pending (broker w) in
  let monitorJobs := filter (λ j, job_monitorId j = monitorId) jobs in
  foldl (λ w j, set_broker (Job_remove (job_id j) (broker w))
                  (call (CallJobRemove (job_id j)) w))
        w monitorJobs.

(** *** The worker that runs [processMonitorJob]

    The worker takes a job that is waiting, or delayed and due, and marks
    it active; when the processor settles it marks the job completed, or,
    when the processor threw, counts the attempt and either delays the job
    by the exponential backoff or marks it failed. *)

Definition due (now : Z) (j : Job) : bool :=
  match job_state j with
  | waiting => true
  | delayed => Qle_bool (job_runAt j) (inject_Z now)
  | _ => false
  end.

Definition with_state (st : JobState) (j : Job) : Job :=
  {| job_id := job_id j; job_name := job_name j;
     job_monitorId := job_monitorId j; job_delay := job_delay j;
     job_timestamp := job_timestamp j; job_runAt := job_runAt j;
     job_attemptsMade := job_attemptsMade j; job_state := st |}.

(** The backoff before attempt [n + 1], after [n] failed attempts. *)
Definition backoff (n : nat) : Z :=
  2 ^ (Z.of_nat n - 1) * backoff_delay defaultJobOptions.

Definition settle (now : Z) (r : JobResult) (j : Job) : Job :=
  match r with
  | Thrown _ =>
      let n := S (job_attemptsMade j) in
      {| job_id := job_id j; job_name := job_name j;
         job_monitorId := job_monitorId j; job_delay := job_delay j;
         job_timestamp := job_timestamp j;
         job_runAt := if decide (n < attempts defaultJobOptions)%nat
                      then inject_Z (now + backoff n) else job_runAt j;
         job_attemptsMade := n;
         job_state := if decide (n < attempts defaultJobOptions)%nat
                      then delayed else failed |}
  | _ => with_state completed j
  end.

Definition update_job (jid : JobId) (st : JobState) (f : Job → Job)
    (q : Queue) : Queue :=
  {| q_jobs := (λ j, if decide (job_id j = jid ∧ job_state j = st)
                     then f j else j) <$> q_jobs q;
     q_counter := q_counter q |}.

Definition Worker_take (jid : JobId) (w : World) : option (Job * World) :=
  match List.find (λ j, bool_decide (job_id j = jid) && due (clock w) j)
                  (q_jobs (broker w)) with
  | Some j =>
      Some (with_state active j,
            set_broker (update_job jid (job_state j) (with_state active) (broker w)) w)
  | None => None
  end.

Definition Worker_settle (jid : JobId) (r : JobResult) (w : World) : World :=
  set_broker (update_job jid active (settle (clock w) r) (broker w)) w.

(** One run of a job by the worker: take, process, settle. *)
Definition Worker_run (jid : JobId) (beat : BeatOutcome) (w : World) : World :=
  match Worker_take jid w with
  | Some (job, w) =>
      let '(r, w) := processMonitorJob job beat w in
      Worker_settle jid r w
  | None => w
  end.

End QueueManager.

(** ** [server/queue/queue-integration.js] *)

Module QueueIntegration.

(** The [QueueManager] instance held by the facade; its queue lives in the
    broker, that is in [World]. *)
Record Manager := {
  queueName : string;
  jobOptions : DefaultJobOptions }.

Definition theManager : Manager :=
  {| queueName := "monitor-checks"; jobOptions := defaultJobOptions |}.

(** The fields of a [QueueIntegration] object. *)
Record Facade := {
  queueManager : option Manager;     (* [null] is [None] *)
  isQueueMode : bool;
  isInitialized : bool }.

(** What the environment answers during one call of a method. *)
Record Oracle := {
  ctor_throws : bool;        (* does [new QueueManager()] throw *)
  random : nat → Q;          (* the draws of [Math.random()] *)
  randomInt : nat → Z;       (* the draws of [getRandomInt(300, 1000)] *)
  stats_throws : option string  (* does [getQueueStats()] throw *) }.

(** [constructor()]; the argument is [process.env.ENABLE_QUEUE_MODE]. *)
Definition constructor (ENABLE_QUEUE_MODE : option string) : Facade :=
  {| queueManager := None;
     isQueueMode := bool_decide (ENABLE_QUEUE_MODE = Some "true");
     isInitialized := false |}.

(** [this.isQueueMode && this.queueManager] *)
Definition queue_path (f : Facade) : option Manager :=
  if isQueueMode f then queueManager f else None.

(** [initialize()] *)
Definition initialize (o : Oracle) (f : Facade) (w : World) : Facade * World :=
  if isQueueMode f && negb (isInitialized f) then
    if ctor_throws o then
      (* catch: log, fall back *)
      ({| queueManager := queueManager f; isQueueMode := false;
          isInitialized := isInitialized f |},
       call (NewQueueManager true) w)
    else
      ({| queueManager := Some theManager; isQueueMode := isQueueMode f;
          isInitialized := true |},
       call (NewQueueManager false) w)
  else (f, w).

(** [startMonitorsTraditional(io)] *)
Definition startMonitorsTraditional (o : Oracle) (w : World) : World :=
  let list := R_find_active (db w) in
  let w := foldl (λ w monitor,
             set_monitorList (<[m_id monitor := monitor]> (monitorList w)) w)
           w list in
  foldl (λ w km,
     let w := call (CallMonitorStart (m_id km.2)) w in   (* a throw is caught and logged *)
     let ms := randomInt o km.1 in
     elapse ms (call (CallSleep ms) w))
    w (imap (λ k monitor, (k, monitor)) list).

(** [startAllMonitors(io)] *)
Definition startAllMonitors (o : Oracle) (f : Facade) (w : World) : Facade * World :=
  let '(f, w) := initialize o f w in
  match queue_path f with
  | Some _ => (f, QueueManager.startAllMonitors (random o) w)
  | None => (f, startMonitorsTraditional o w)
  end.

(** [startMonitor(monitorId, io)] *)
Definition startMonitor (monitorId : Z) (f : Facade) (w : World) : World :=
  match queue_path f with
  | Some _ =>
      let opts := {| o_delay := 0; o_jobId := None |} in
      let w := call (CallQueueAdd (jobName monitorId) monitorId opts (clock w)) w in
      set_broker (Queue_add (jobName monitorId) monitorId opts (clock w) (broker w)) w
  | None =>
      match R_findOne (db w) monitorId with
      | Some monitor => call (CallMonitorStart (m_id monitor)) w
      | None => w
      end
  end.

(** [stopMonitor(monitorId)] *)
Definition stopMonitor (monitorId : Z) (f : Facade) (w : World) : World :=
  match queue_path f with
  | Some _ => QueueManager.stopMonitor monitorId w
  | None =>
      match monitorList w !! monitorId with
      | Some _ =>
          let w := call (CallMonitorStop monitorId) w in
          set_monitorList (delete monitorId (monitorList w)) w
      | None => w
      end
  end.

(** The object returned by [getStats()]. *)
Record Stats := {
  mode : string;
  redis : bool;
  activeMonitors : option nat;           (* traditional mode only *)
  queueStats : option (list Job * list Job * list Job * list Job) }.

Definition in_state (st : JobState) (q : Queue) : list Job :=
  filter (λ j, job_state j = st) (q_jobs q).

(** [getStats()]; it throws when [getQueueStats()] does. *)
Definition getStats (o : Oracle) (f : Facade) (w : World)
    : (string + Stats) * World :=
  match queue_path f with
  | Some _ =>
      let w := call CallGetQueueStats w in
      match stats_throws o with
      | Some e => (inl e, w)
      | None =>
          let q := broker w in
          (inr {| mode := "queue"; redis := true; activeMonitors := None;
                  queueStats := Some (in_state waiting q, in_state active q,
                                      in_state completed q, in_state failed q) |}, w)
      end
  | None =>
      (inr {| mode := "traditional"; redis := false;
              activeMonitors := Some (size (monitorList w));
              queueStats := None |}, w)
  end.

(** The object returned by [healthCheck()]. *)
Record Health := {
  h_status : string;
  h_mode : string;
  h_stats : option Stats;
  h_error : option string }.

(** [healthCheck()] *)
Definition healthCheck (o : Oracle) (f : Facade) (w : World) : Health * World :=
  if negb (isQueueMode f) then
    ({| h_status := "disabled"; h_mode := "traditional";
        h_stats := None; h_error := None |}, w)
  else
    match getStats o f w with
    | (inr stats, w) =>
        ({| h_status := "healthy"; h_mode := "queue";
            h_stats := Some stats; h_error := None |}, w)
    | (inl e, w) =>
        ({| h_status := "unhealthy"; h_mode := "queue";
            h_stats := None; h_error := Some e |}, w)
    end.

(** [shutdown()] *)
Definition shutdown (f : Facade) (w : World) : World :=
  match queueManager f with
  | Some _ => call CallQueueClose w
  | None => w
  end.

(** The methods a caller can invoke, and a run of a sequence of them. *)
Inductive Op :=
  | Initialize
  | StartAllMonitors
  | StartMonitor (monitorId : Z)
  | StopMonitor (monitorId : Z)
  | GetStats
  | HealthCheck
  | Shutdown.

Definition step (op : Op) (o : Oracle) (fw : Facade * World) : Facade * World :=
  let '(f, w) := fw in
  match op with
  | Initialize => initialize o f w
  | StartAllMonitors => startAllMonitors o f w
  | StartMonitor monitorId => (f, startMonitor monitorId f w)
  | StopMonitor monitorId => (f, stopMonitor monitorId f w)
  | GetStats => (f, (getStats o f w).2)
  | HealthCheck => (f, (healthCheck o f w).2)
  | Shutdown => (f, shutdown f w)
  end.

Definition run (ops : list (Op * Oracle)) (fw : Facade * World) : Facade * World :=
  foldl (λ fw oo, step oo.1 oo.2 fw) fw ops.

(** The calls that only the queue path makes. *)
Definition queue_call (c : Call) : bool :=
  match c with
  | NewQueueManager _ | CallQueueAdd _ _ _ _ | CallObliterate
  | CallAddBulk _ _ | CallJobRemove _ | CallGetQueueStats
  | CallPerformCheck _ | CallQueueClose => true
  | CallMonitorStart _ | CallMonitorStop _ | CallSleep _ => false
  end.

End QueueIntegration.

(** ** [server/monitor-types/real-browser-monitor-type.js] *)

Module RealBrowser.

(** A Playwright [Browser] object: a handle, and the endpoint when it is a
    connection to a remote browser. *)
Record Browser := {
  handle : nat;
  endpoint : option string }.

#[global] Instance Browser_eq_dec : EqDecision Browser.
Proof. solve_decision. Defined.

(** A row of the [remote_browser] table. *)
Record RemoteBrowserRow := {
  rb_id : Z;
  rb_name : string;
  rb_url : string }.

(** The response of [page.goto]. *)
Record Response := {
  status : Z;
  responseEnd : Q }.

Inductive Result (A : Type) :=
  | Ok (a : A)
  | Throw (error : string).
Arguments Ok {A} a.
Arguments Throw {A} error.

(** Calls into Playwright and the operating system. *)
Inductive BCall :=
  | AptInstall
  | Launch (executablePath : option string)
  | Connect (url : string)
  | NewContext (b : Browser) (videoDir : string)
  | NewPage
  | Goto (url waitUntil : string) (timeout : Z)
  | WaitForTimeout (ms : Z)
  | Screenshot (path : string)
  | PageVideo
  | PageClose
  | VideoSaveAs (path : string)
  | Sleep (ms : Z)
  | ContextClose.

#[global] Instance BCall_eq_dec : EqDecision BCall.
Proof. solve_decision. Defined.

Inductive Status := DOWN | UP | PENDING | MAINTENANCE.

(** The fields of the heartbeat that [check] writes. *)
Record Heartbeat := {
  hb_status : option Status;
  hb_msg : option Z;
  hb_ping : option Q }.

(** The module's variables, the heartbeat object handed to [check], and the
    calls made so far. *)
Record State := {
  browser : option Browser;                        (* [let browser = null] *)
  lastAutoDetectChromeExecutable : option string;
  heartbeat : Heartbeat;
  trace : list BCall }.

(** What the environment answers during one check. *)
Record Env := {
  allowedList : list string;
  allow_all_chrome_exec : bool;     (* the flag or UPTIME_KUMA_ALLOW_ALL_CHROME_EXEC = "1" *)
  is_container : bool;              (* process.env.UPTIME_KUMA_IS_CONTAINER *)
  chromeExecutable : option string; (* Settings.get("chromeExecutable") *)
  commandExists : string → bool;
  apt_exit_code : Z;
  isConnected : Browser → bool;
  launch : option string → Result Browser;
  RemoteBrowser_get : Z → Z → Result (option RemoteBrowserRow);
  connect : string → Result Browser;
  url_rest_valid : string → bool;   (* the URL parser accepts what follows the scheme *)
  hmac_sha256 : string → string → string;  (* the HMAC-SHA256 digest of data under key *)
  screenshotDir : string;           (* Database.screenshotDir *)
  videoDir : string;                (* Database.videoDir *)
  newContext : option string;       (* [Some e]: the call throws [e] *)
  newPage : option string;
  goto : string → Result Response;
  waitForTimeout : option string;
  screenshot : option string;
  page_video : bool;                (* [page.video()] is not null *)
  page_close : option string;
  video_saveAs : option string;
  context_close : option string }.

(** The error-and-state monad of the module's async functions. *)
Definition M (A : Type) : Type := State → Result A * State.

#[global] Instance M_ret : MRet M := λ A a s, (Ok a, s).
#[global] Instance M_bind : MBind M := λ A B k m s,
  match m s with
  | (Ok a, s') => k a s'
  | (Throw e, s') => (Throw e, s')
  end.

Definition throw {A} (e : string) : M A := λ s, (Throw e, s).

(** [try { m } catch (error) { log }] *)
Definition try_log (m : M unit) : M unit :=
  λ s, match m s with
       | (Ok _, s') => (Ok (), s')
       | (Throw _, s') => (Ok (), s')
       end.

Definition emit (c : BCall) : M unit :=
  λ s, (Ok (), {| browser := browser s;
                  lastAutoDetectChromeExecutable := lastAutoDetectChromeExecutable s;
                  heartbeat := heartbeat s; trace := trace s ++ [c] |}).

Definition get_browser : M (option Browser) := λ s, (Ok (browser s), s).
Definition set_browser (b : option Browser) : M unit :=
  λ s, (Ok (), {| browser := b;
                  lastAutoDetectChromeExecutable := lastAutoDetectChromeExecutable s;
                  heartbeat := heartbeat s; trace := trace s |}).
Definition get_last : M (option string) :=
  λ s, (Ok (lastAutoDetectChromeExecutable s), s).
Definition set_last (p : option string) : M unit :=
  λ s, (Ok (), {| browser := browser s; lastAutoDetectChromeExecutable := p;
                  heartbeat := heartbeat s; trace := trace s |}).
Definition set_heartbeat (h : Heartbeat) : M unit :=
  λ s, (Ok (), {| browser := browser s;
                  lastAutoDetectChromeExecutable := lastAutoDetectChromeExecutable s;
                  heartbeat := h; trace := trace s |}).

(** A call that throws when the environment says so. *)
Definition may_throw (c : BCall) (o : option string) : M unit :=
  emit c ;; match o with Some e => throw e | None => mret () end.

Definition of_result {A} (r : Result A) : M A :=
  match r with Ok a => mret a | Throw e => throw e end.

(** A string used as a condition: [null], [undefined] and [""] are falsy. *)
Definition truthy (x : option string) : option string :=
  match x with
  | Some s => if bool_decide (s = "") then None else Some s
  | None => None
  end.

(** ASCII lower case, for [toLocaleLowerCase()]. *)
Definition lower_ascii (c : ascii) : ascii :=
  let n := nat_of_ascii c in
  if (65 <=? n)%nat && (n <=? 90)%nat then ascii_of_nat (n + 32) else c.

Fixpoint lower (s : string) : string :=
  match s with
  | EmptyString => EmptyString
  | String c s' => String (lower_ascii c) (lower s')
  end.

(** *** [jsonwebtoken]

    [jwt.sign(payload, secret)] with the default options and a payload
    that is a number returns the compact JWS serialization
    header.payload.signature: the header is the JSON text of
    [{ alg: "HS256" }] (the [typ] member is set for object payloads only),
    the payload is the number in decimal, and the signature is the
    HMAC-SHA256 digest of header.payload under the secret; each part is
    base64url encoded.  An [iat] claim is added to object payloads only, so
    neither the time nor a counter enters the token.  The digest is an
    input of the model ([hmac]).  The secret is [server.jwtSecret], which
    the server generates at setup; for an empty secret the library throws
    before it signs, a case that is left out. *)

Definition base64url_alphabet : list ascii :=
  list_ascii_of_string
    "ABCDEFGHIJKLMNOPQRSTUVWXYZabcdefghijklmnopqrstuvwxyz0123456789-_".

Definition base64url_char (sextet : N) : ascii :=
  nth (N.to_nat sextet) base64url_alphabet "A"%char.

(** Base64 with the URL-safe alphabet and no padding (RFC 4648, section
    5): three bytes give four characters, a rest of two bytes three, a rest
    of one byte two. *)
Fixpoint base64url (bytes : string) : string :=
  match bytes with
  | String a (String b (String c rest)) =>
      let n := (N_of_ascii a * 65536 + N_of_ascii b * 256 + N_of_ascii c)%N in
      String (base64url_char (n / 262144))
        (String (base64url_char (n / 4096 mod 64))
           (String (base64url_char (n / 64 mod 64))
              (String (base64url_char (n mod 64)) (base64url rest))))
  | String a (String b EmptyString) =>
      let n := (N_of_ascii a * 1024 + N_of_ascii b * 4)%N in
      String (base64url_char (n / 4096))
        (String (base64url_char (n / 64 mod 64))
           (String (base64url_char (n mod 64)) EmptyString))
  | String a EmptyString =>
      let n := (N_of_ascii a * 16)%N in
      String (base64url_char (n / 64))
        (String (base64url_char (n mod 64)) EmptyString)
  | EmptyString => EmptyString
  end.

(** The JSON text of the header; ["034"] is the double quote. *)
Definition jws_header : string :=
  let q := String "034"%char EmptyString in
  "{" +:+ q +:+ "alg" +:+ q +:+ ":" +:+ q +:+ "HS256" +:+ q +:+ "}".

Definition jwt_sign (hmac : string → string → string) (payload : Z)
    (secret : string) : string :=
  let securedInput := base64url jws_header +:+ "." +:+ base64url (pretty payload) in
  securedInput +:+ "." +:+ base64url (hmac secret securedInput).

(** *** [path]

    [path.join(dir, file)] of the POSIX [path] module: the non-empty
    arguments are joined by a slash and the result is normalized.
    [path.normalize] drops empty segments and [.] segments, lets a [..]
    segment remove the segment before it (or keeps it, at the start of a
    relative path), and keeps a leading and a trailing slash. *)

Fixpoint split_slash (s : string) : list string :=
  match s with
  | EmptyString => [EmptyString]
  | String c s' =>
      if bool_decide (c = "/"%char) then EmptyString :: split_slash s'
      else match split_slash s' with
           | seg :: segs => String c seg :: segs
           | [] => [String c EmptyString]
           end
  end.

Fixpoint join_slash (segs : list string) : string :=
  match segs with
  | [] => EmptyString
  | seg :: segs' =>
      match segs' with
      | [] => seg
      | _ => seg +:+ "/" +:+ join_slash segs'
      end
  end.

(** One segment of [normalizeString(path, allowAboveRoot)]. *)
Definition normalize_segment (allowAboveRoot : bool) (res : list string)
    (seg : string) : list string :=
  if bool_decide (seg = "") || bool_decide (seg = ".") then res
  else if bool_decide (seg = "..") then
    match last res with
    | Some l =>
        if bool_decide (l = "..")
        then (if allowAboveRoot then res ++ [".."] else res)
        else removelast res
    | None => if allowAboveRoot then [".."] else []
    end
  else res ++ [seg].

Definition starts_with_slash (s : string) : bool :=
  match s with
  | String c _ => bool_decide (c = "/"%char)
  | EmptyString => false
  end.

Fixpoint ends_with_slash (s : string) : bool :=
  match s with
  | EmptyString => false
  | String c EmptyString => bool_decide (c = "/"%char)
  | String _ s' => ends_with_slash s'
  end.

(** [path.normalize(path)] *)
Definition path_normalize (path : string) : string :=
  if bool_decide (path = "") then "."
  else
    let isAbsolute := starts_with_slash path in
    let trailingSeparator := ends_with_slash path in
    let p := join_slash (foldl (normalize_segment (negb isAbsolute)) []
                           (split_slash path)) in
    if bool_decide (p = "") then
      if isAbsolute then "/" else if trailingSeparator then "./" else "."
    else
      (if isAbsolute then "/" else "") +:+ p
      +:+ (if trailingSeparator then "/" else "").

(** [path.join(dir, file)] *)
Definition path_join (dir file : string) : string :=
  if bool_decide (dir = "") then
    if bool_decide (file = "") then "." else path_normalize file
  else if bool_decide (file = "") then path_normalize dir
  else path_normalize (dir +:+ "/" +:+ file).

Section WithEnv.
Variable E : Env.

(** [isAllowedChromeExecutable(executablePath)] *)
Definition isAllowedChromeExecutable (executablePath : string) : bool :=
  if allow_all_chrome_exec E then true
  else bool_decide (executablePath ∈ allowedList E).

(** The [for] loop of [findChrome]. *)
Definition findChrome_loop (executables : list string) : M string :=
  match List.find (commandExists E) executables with
  | Some executable => set_last (Some executable) ;; mret executable
  | None => throw "Chromium not found, please specify Chromium executable path in the settings page."
  end.

(** [findChrome(executables)] *)
Definition findChrome (executables : list string) : M string :=
  last ← get_last ;
  match truthy last with
  | Some l => if commandExists E l then mret l else findChrome_loop executables
  | None => findChrome_loop executables
  end.

(** The promise around [apt install] in [prepareChromeExecutable]. *)
Definition installChromium : M unit :=
  emit AptInstall ;;
  if bool_decide (apt_exit_code E = 0) then mret ()
  else if bool_decide (apt_exit_code E = 100)
    then throw "Installing Chromium, please wait..."
    else throw ("apt install chromium failed with code " +:+ pretty (apt_exit_code E)).

(** [prepareChromeExecutable(executablePath)]; [None] is [null] or
    [undefined], in the argument and in the result. *)
Definition prepareChromeExecutable (executablePath : option string)
    : M (option string) :=
  if bool_decide (lower <$> executablePath = Some "#playwright_chromium") then
    mret None
  else
    match truthy executablePath with
    | None =>
        if is_container E then
          (if negb (commandExists E "/usr/bin/chromium")
           then installChromium else mret ()) ;;
          mret (Some "/usr/bin/chromium")
        else
          x ← findChrome (allowedList E) ; mret (Some x)
    | Some p =>
        if negb (isAllowedChromeExecutable p)
        then throw "This Chromium executable path is not allowed by default. If you are sure this is safe, please add an environment variable UPTIME_KUMA_ALLOW_ALL_CHROME_EXEC=1 to allow it."
        else mret (Some p)
    end.

(** The [else] branch of [getBrowser]. *)
Definition launchBrowser : M Browser :=
  executablePath ← prepareChromeExecutable (chromeExecutable E) ;
  emit (Launch executablePath) ;;
  nb ← of_result (launch E executablePath) ;
  set_browser (Some nb) ;;
  mret nb.

(** [getBrowser()] *)
Definition getBrowser : M Browser :=
  b ← get_browser ;
  match b with
  | Some b' => if isConnected E b' then mret b' else launchBrowser
  | None => launchBrowser
  end.

(** [getRemoteBrowser(remoteBrowserID, userId)] *)
Definition getRemoteBrowser (remoteBrowserID userId : Z) : M Browser :=
  remoteBrowser ← of_result (RemoteBrowser_get E remoteBrowserID userId) ;
  match remoteBrowser with
  | None => throw "TypeError: Cannot read properties of null (reading 'name')"
  | Some row =>
      emit (Connect (rb_url row)) ;;
      nb ← of_result (connect E (rb_url row)) ;
      set_browser (Some nb) ;;
      mret nb
  end.

(** The scheme of a URL, as [new URL(input).protocol] computes it: leading
    C0 controls and spaces are stripped, tabs and newlines removed, then a
    letter followed by letters, digits, [+], [-] and [.] up to the first
    colon is the scheme, in lower case.  [None] when there is no scheme (the
    constructor then throws, there being no base URL). *)
Definition is_alpha (c : ascii) : bool :=
  let n := nat_of_ascii c in
  ((65 <=? n)%nat && (n <=? 90)%nat) || ((97 <=? n)%nat && (n <=? 122)%nat).

Definition is_scheme_char (c : ascii) : bool :=
  is_alpha c || is_digit c || bool_decide (c ∈ ["+"; "-"; "."]%char).

Fixpoint strip_leading (s : string) : string :=
  match s with
  | String c s' => if (nat_of_ascii c <=? 32)%nat then strip_leading s' else s
  | EmptyString => EmptyString
  end.

Fixpoint remove_tab_newline (s : string) : string :=
  match s with
  | String c s' =>
      if bool_decide (nat_of_ascii c ∈ [9; 10; 13]%nat) then remove_tab_newline s'
      else String c (remove_tab_newline s')
  | EmptyString => EmptyString
  end.

Fixpoint scheme_state (buffer input : string) : option string :=
  match input with
  | String c rest =>
      if bool_decide (c = ":"%char) then Some (buffer +:+ ":")
      else if is_scheme_char c
           then scheme_state (buffer +:+ String (lower_ascii c) "") rest
           else None
  | EmptyString => None
  end.

Definition URL_protocol (input : string) : option string :=
  match remove_tab_newline (strip_leading input) with
  | String c rest =>
      if is_alpha c then scheme_state (String (lower_ascii c) "") rest else None
  | EmptyString => None
  end.

(** [new URL(input)], of which [check] reads the protocol only. *)
Definition new_URL (input : string) : M string :=
  match URL_protocol input with
  | Some protocol =>
      if url_rest_valid E input then mret protocol
      else throw "TypeError: Invalid URL"
  | None => throw "TypeError: Invalid URL"
  end.

(** [jwt.sign(monitor.id, server.jwtSecret)] and the two artifact paths
    of lines 256 to 265. *)
Definition filename (monitor : Monitor) (jwtSecret : string) : string :=
  jwt_sign (hmac_sha256 E) (m_id monitor) jwtSecret.

Definition screenshotPath (monitor : Monitor) (jwtSecret : string) : string :=
  path_join (screenshotDir E) (filename monitor jwtSecret +:+ ".png").

Definition videoPath (monitor : Monitor) (jwtSecret : string) : string :=
  path_join (videoDir E) (filename monitor jwtSecret +:+ ".webm").

Definition testUrl : string := "https://example.com".

(** The first statement of [check]: the browser the check runs in. *)
Definition acquire (monitor : Monitor) : M Browser :=
  match m_remote_browser monitor with
  | Some rb =>
      if bool_decide (rb = 0) then getBrowser
      else getRemoteBrowser rb (m_user_id monitor)
  | None => getBrowser
  end.

(** The block that saves the video, inside its [try]. *)
Definition saveVideo (path : string) : M unit :=
  emit PageVideo ;;
  if page_video E then
    may_throw PageClose (page_close E) ;;
    may_throw (VideoSaveAs path) (video_saveAs E) ;;
    emit (Sleep 1000)
  else mret ().

(** [check(monitor, heartbeat, server)]; [jwtSecret] is [server.jwtSecret],
    the heartbeat is the one in the state. *)
Definition check (monitor : Monitor) (jwtSecret : string) : M unit :=
  browser ← acquire monitor ;
  protocol ← new_URL (m_url monitor) ;
  if bool_decide (protocol ≠ "http:") && bool_decide (protocol ≠ "https:") then
    throw "Invalid url protocol, only http and https are allowed."
  else
    may_throw (NewContext browser (videoDir E)) (newContext E) ;;
    may_throw NewPage (newPage E) ;;
    emit (Goto testUrl "networkidle" 30000) ;;
    res ← of_result (goto E testUrl) ;
    may_throw (WaitForTimeout 5000) (waitForTimeout E) ;;
    may_throw (Screenshot (screenshotPath monitor jwtSecret)) (screenshot E) ;;
    match truthy (Some (videoPath monitor jwtSecret)) with
    | Some path => try_log (saveVideo path)
    | None => mret ()
    end ;;
    may_throw ContextClose (context_close E) ;;
    if (200 <=? status res) && (status res <? 400) then
      set_heartbeat {| hb_status := Some UP; hb_msg := Some (status res);
                       hb_ping := Some (responseEnd res) |}
    else throw (pretty (status res)).

End WithEnv.

(** *** Vocabulary for the properties *)

(** The calls by which a browser is obtained. *)
Definition acquisition (c : BCall) : Prop :=
  match c with
  | AptInstall | Launch _ | Connect _ => True
  | _ => False
  end.

(** Every call a computation adds to the trace satisfies [P]. *)
Definition emits_only {A} (P : BCall → Prop) (m : M A) : Prop :=
  ∀ s, ∃ l, trace (m s).2 = trace s ++ l ∧ Forall P l.

(** A computation that does not assign the module's [browser] variable. *)
Definition keeps_browser {A} (m : M A) : Prop :=
  ∀ s, browser (m s).2 = browser s.

(** The browsing contexts opened and not closed in a trace. *)
Definition opens_context (c : BCall) : bool :=
  match c with NewContext _ _ => true | _ => false end.

Definition writes_artifact (c : BCall) : bool :=
  match c with Screenshot _ | VideoSaveAs _ => true | _ => false end.

Definition navigates (c : BCall) : bool :=
  match c with Goto _ _ _ => true | _ => false end.

(** A character occurs in a string. *)
Fixpoint occurs (c : ascii) (s : string) : bool :=
  match s with
  | EmptyString => false
  | String c' s' => bool_decide (c' = c) || occurs c s'
  end.

Definition open_contexts (t : list BCall) : Z :=
  Z.of_nat (length (filter (λ c, opens_context c = true) t))
  - Z.of_nat (length (filter (λ c, c = ContextClose) t)).

End RealBrowser.

(** ** Vocabulary for the properties of the queue and the facade *)

(** The jobs [stopMonitor] looks at: waiting or delayed. *)
Definition pending (j : Job) : Prop :=
  job_state j = waiting ∨ job_state j = delayed.

#[global] Instance pending_dec j : Decision (pending j).
Proof. unfold pending. apply _. Defined.

(** The constructions of a queue manager among calls, failed or not. *)
Definition is_construction (c : Call) : bool :=
  match c with NewQueueManager _ => true | _ => false end.

Definition constructions (l : list Call) : nat :=
  length (filter (λ c, is_construction c = true) l).

(** The constructions the facade may still attempt: one while queue mode
    is enabled and not initialized, none otherwise. *)
Definition may_construct (f : QueueIntegration.Facade) : nat :=
  if QueueIntegration.isQueueMode f && negb (QueueIntegration.isInitialized f)
  then 1 else 0.

(** ** The queue while jobs are processed

    [processMonitorJob] is an async function: while it awaits, other
    operations of this process, and of every other process that works on
    the same queue, take effect.  A run in flight stands at one of its
    awaits: the query of line 66, the check of line 78, the [Queue.add] of
    [scheduleNextCheck] (line 81; its arguments, [Date.now()] among them,
    are computed when the check has returned), or it has settled and the
    worker has yet to move the job out of the active state.  The bulk
    start, a start and a stop of one monitor are taken as a whole.  A
    worker is taken to renew the lock of a job while its processor runs:
    the recovery of stalled jobs is not part of the model. *)

Module Interleaving.
Import QueueManager.

Inductive Stage :=
  | AwaitFindOne
  | AwaitBeat (monitor : Monitor)
  | AwaitAdd (monitor : Monitor) (now : Z)
  | Settling (result : JobResult).

(** The job the worker handed to the processor, and where the processor
    stands. *)
Record Run := {
  run_job : Job;
  run_stage : Stage }.

Record System := {
  world : World;
  runs : list Run }.

Definition with_stage (st : Stage) (r : Run) : Run :=
  {| run_job := run_job r; run_stage := st |}.

(** A call whose arguments were computed at time [t] takes effect now. *)
Definition at_time (t : Z) (f : World → World) (w : World) : World :=
  set_clock (clock w) (f (set_clock t w)).

(** The awaited operation of a run completes and the processor continues
    to its next await; [None] when the worker has settled the job.  [beat]
    is what the check does from here on, when the run awaits the check. *)
Definition resume (beat : BeatOutcome) (r : Run) (w : World)
    : option Stage * World :=
  match run_stage r with
  | AwaitFindOne =>
      match R_findOne_active (db w) (job_monitorId (run_job r)) with
      | None => (Some (Settling Skipped), w)
      | Some monitor => (Some (AwaitBeat monitor), w)
      end
  | AwaitBeat monitor =>
      match executeMonitorBeat monitor beat w with
      | (Some error, w) => (Some (Settling (Thrown error)), w)
      | (None, w) => (Some (AwaitAdd monitor (clock w)), w)
      end
  | AwaitAdd monitor now =>
      (Some (Settling (Done (job_monitorId (run_job r)))),
       at_time now (scheduleNextCheck monitor) w)
  | Settling result =>
      (None, Worker_settle (job_id (run_job r)) result w)
  end.

Definition running (jid : JobId) (r : Run) : bool :=
  bool_decide (job_id (run_job r) = jid).

(** What happens to the queue while the process runs in queue mode. *)
Inductive Event :=
  | EvStartAll (random : nat → Q)
  | EvStart (monitorId : Z)
  | EvStop (monitorId : Z)
  | EvTake (jid : JobId)
  | EvResume (jid : JobId) (beat : BeatOutcome)
  | EvElapse (ms : Z)
  | EvStore (db' : Store).

Definition set_db (db' : Store) (w : World) : World :=
  {| clock := clock w; db := db'; broker := broker w;
     monitorList := monitorList w; calls := calls w |}.

Definition happen (f : QueueIntegration.Facade) (s : System) (e : Event)
    : System :=
  match e with
  | EvStartAll random =>
      {| world := startAllMonitors random (world s); runs := runs s |}
  | EvStart monitorId =>
      {| world := QueueIntegration.startMonitor monitorId f (world s);
         runs := runs s |}
  | EvStop monitorId =>
      {| world := stopMonitor monitorId (world s); runs := runs s |}
  | EvTake jid =>
      match Worker_take jid (world s) with
      | Some (job, w) =>
          {| world := w;
             runs := runs s ++ [{| run_job := job; run_stage := AwaitFindOne |}] |}
      | None => s
      end
  | EvResume jid beat =>
      match List.find (running jid) (runs s) with
      | Some r =>
          match resume beat r (world s) with
          | (Some st, w) =>
              {| world := w;
                 runs := (λ x, if running jid x then with_stage st x else x)
                           <$> runs s |}
          | (None, w) =>
              {| world := w;
                 runs := filter (λ x, running jid x = false) (runs s) |}
          end
      | None => s
      end
  | EvElapse ms => {| world := elapse ms (world s); runs := runs s |}
  | EvStore db' => {| world := set_db db' (world s); runs := runs s |}
  end.

(** A run whose processor has returned: its job only waits for the worker
    to mark it completed. *)
Definition finished (r : Run) : Prop :=
  match run_stage r with
  | Settling Skipped | Settling (Done _) => True
  | _ => False
  end.

#[global] Instance finished_dec r : Decision (finished r).
Proof. unfold finished. destruct (run_stage r) as [| | |[| |]]; apply _. Defined.






End Interleaving.

(** ** Vocabulary for the properties of the shared browser *)

(** The cached last detection, when there is one, is on the allow-list. *)
Definition cache_listed (E : RealBrowser.Env) (s : RealBrowser.State) : Prop :=
  ∀ c, RealBrowser.truthy (RealBrowser.lastAutoDetectChromeExecutable s) = Some c →
       c ∈ RealBrowser.allowedList E.

(** A launch of an executable path is vetted when the override is set, the
    path is on the allow-list, or it is the container's Chromium; other
    calls, and the launch of the bundled Chromium, count as vetted. *)
Definition vetted (E : RealBrowser.Env) (c : RealBrowser.BCall) : Prop :=
  match c with
  | RealBrowser.Launch (Some p) =>
      RealBrowser.allow_all_chrome_exec E = true
      ∨ p ∈ RealBrowser.allowedList E
      ∨ (RealBrowser.is_container E = true ∧ p = "/usr/bin/chromium")
  | _ => True
  end.

(** A computation that leaves a component of the state as it is. *)
Definition preserves {X A} (proj : RealBrowser.State → X) (m : RealBrowser.M A) : Prop :=
  ∀ s, proj (m s).2 = proj s.

(** ** The digests of the examples

    The HMAC-SHA256 digests, under the key ["secret"], of the signing
    inputs of the tokens of monitors 7 and 8; other inputs are not used by
    the examples and get zeros. *)
Definition bytes_of (codes : list Z) : string :=
  string_of_list_ascii ((λ code, ascii_of_N (Z.to_N code)) <$> codes).

Definition hmac_examples (key data : string) : string :=
  if bool_decide (key = "secret") && bool_decide (data = "eyJhbGciOiJIUzI1NiJ9.Nw")
  then bytes_of [207; 142; 159; 5; 138; 234; 20; 193; 169; 207; 61; 91; 169;
                 44; 1; 116; 208; 106; 135; 24; 21; 10; 195; 251; 152; 71; 239;
                 155; 189; 66; 39; 129]
  else if bool_decide (key = "secret")
          && bool_decide (data = "eyJhbGciOiJIUzI1NiJ9.OA")
  then bytes_of [142; 206; 60; 20; 136; 8; 46; 172; 166; 193; 101; 13; 213;
                 178; 169; 222; 116; 2; 170; 158; 3; 202; 255; 78; 82; 250; 238;
                 27; 218; 202; 166; 244]
  else bytes_of (replicate 32 0).

(** * Properties *)

(** ** Decimal rendering *)










(** ** The store *)

Lemma R_findOne_active_spec (db : Store) (monitorId : Z) (monitor : Monitor) :
  R_findOne_active db monitorId = Some monitor →
  monitor ∈ db ∧ m_id monitor = monitorId ∧ m_active monitor = true.
Proof.
  unfold R_findOne_active. intros H.
  pose proof (find_some _ _ H) as [Hin Hb].
  apply andb_prop in Hb as [Hid Hact]. apply bool_decide_eq_true in Hid.
  by rewrite list_elem_of_In.
Qed.

Lemma R_find_active_NoDup (db : Store) :
  NoDup (m_id <$> db) → NoDup (m_id <$> R_find_active db).
Proof.
  unfold R_find_active. induction db as [|m db IH]; [done|].
  rewrite fmap_cons, NoDup_cons. intros [Hm Hdb].
  rewrite filter_cons. case_decide; [|by apply IH].
  rewrite fmap_cons, NoDup_cons. split; [|by apply IH].
  intros Hin. apply Hm. apply list_elem_of_fmap in Hin as (m' & -> & Hin).
  apply list_elem_of_fmap. exists m'. split; [done|].
  by apply list_elem_of_filter in Hin as [_ ?].
Qed.

(** ** The queue *)

Section QueueFacts.
Import QueueManager.

Lemma inject_Z_plus_eq (a b : Z) : (inject_Z a + inject_Z b)%Q = inject_Z (a + b).
Proof. unfold Qplus, inject_Z. simpl. f_equal. lia. Qed.

Lemma Qle_bool_inject_Z (a b : Z) : Qle_bool (inject_Z a) (inject_Z b) = (a <=? b).
Proof. unfold Qle_bool, inject_Z. simpl. by rewrite !Z.mul_1_r. Qed.

Lemma Queue_add_fresh (nm : string) (monitorId : Z) (o : JobOpts) (now : Z)
    (q : Queue) (s : string) :
  o_jobId o = Some s →
  has_job (CustomId s) q = false →
  q_jobs (Queue_add nm monitorId o now q)
  = q_jobs q ++ [new_job (CustomId s) nm monitorId o now].
Proof. unfold Queue_add. by intros -> ->. Qed.

Lemma Queue_add_auto (nm : string) (monitorId : Z) (o : JobOpts) (now : Z)
    (q : Queue) :
  o_jobId o = None →
  q_jobs (Queue_add nm monitorId o now q)
  = q_jobs q ++ [new_job (AutoId (N.succ (q_counter q))) nm monitorId o now].
Proof. unfold Queue_add. by intros ->. Qed.


Lemma jobsOf_app (x : Z) (q : Queue) (l : list Job) (c : N) :
  jobsOf x {| q_jobs := q_jobs q ++ l; q_counter := c |}
  = jobsOf x q ++ filter (λ j, job_monitorId j = x ∧ outstanding j) l.
Proof. unfold jobsOf. simpl. by rewrite filter_app. Qed.

End QueueFacts.

(** ** Rescheduling after a check *)

Section Reschedule.
Import QueueManager.

(** C7: when the check of an active monitor with interval I ≥ 1 returns,
    [processMonitorJob] asks the queue for the next job of that monitor
    with delay I * 1000 ms at the time the check completed ([clock w + ms],
    not the time the job started), and the job, once stored, may run I
    seconds after that completion. *)
Theorem next_check_one_interval_after_completion
    (w : World) (job : Job) (monitor : Monitor) (ms : Z) :
  1 ≤ m_interval monitor →
  R_findOne_active (db w) (job_monitorId job) = Some monitor →
  let done_at := clock w + ms in
  let opts := {| o_delay := inject_Z (m_interval monitor * 1000);
                 o_jobId := Some (uniqueJobId (m_id monitor) done_at) |} in
  let next := new_job (CustomId (uniqueJobId (m_id monitor) done_at))
                (jobName (m_id monitor)) (m_id monitor) opts done_at in
  let r := (processMonitorJob job (BeatReturns ms) w).1 in
  let w' := (processMonitorJob job (BeatReturns ms) w).2 in
  r = Done (m_id monitor)
  ∧ clock w' = done_at
  ∧ calls w' = calls w ++ [CallPerformCheck (m_id monitor);
                           CallQueueAdd (jobName (m_id monitor)) (m_id monitor)
                                        opts done_at]
  ∧ broker w' = Queue_add (jobName (m_id monitor)) (m_id monitor) opts done_at (broker w)
  ∧ job_monitorId next = m_id monitor
  ∧ job_state next = delayed
  ∧ job_timestamp next = done_at
  ∧ job_delay next = inject_Z (m_interval monitor * 1000)
  ∧ job_runAt next = inject_Z (done_at + m_interval monitor * 1000)
  ∧ (has_job (job_id next) (broker w) = false →
     q_jobs (broker w') = q_jobs (broker w) ++ [next]).
Proof.
  intros HI Hfind. cbv zeta.
  pose proof (R_findOne_active_spec _ _ _ Hfind) as (_ & Hid & _).
  unfold processMonitorJob. rewrite Hfind. simpl.
  unfold scheduleNextCheck, or_default. case_decide; [lia|]. simpl.
  rewrite Hid, <-app_assoc. simpl.
  repeat split; try done.
  - change 0%Q with (inject_Z 0). rewrite Qle_bool_inject_Z.
    destruct (Z.leb_spec (m_interval monitor * 1000) 0); [lia|done].
  - apply inject_Z_plus_eq.
  - intros Hfresh. by apply Queue_add_fresh.
Qed.

(** The theorem at a monitor with a 60 second interval whose check took
    1.5 seconds: the successor may run at 1500 + 60000. *)
Lemma next_check_one_interval_after_completion_witness :
  let monitor := {| m_id := 7; m_name := "web"; m_interval := 60;
                    m_active := true; m_url := "https://a.test/";
                    m_remote_browser := None; m_user_id := 1 |} in
  let w := {| clock := 0; db := [monitor];
              broker := {| q_jobs := []; q_counter := 0 |};
              monitorList := ∅; calls := [] |} in
  let job := new_job (AutoId 1) "monitor-7" 7 {| o_delay := 0; o_jobId := None |} 0 in
  (processMonitorJob job (BeatReturns 1500) w).1 = Done 7
  ∧ (job_runAt <$> q_jobs (broker (processMonitorJob job (BeatReturns 1500) w).2))
    = [inject_Z 61500].
Proof.
  intros monitor w job.
  destruct (next_check_one_interval_after_completion w job monitor 1500)
    as (Hr & _ & _ & _ & _ & _ & _ & _ & _ & Hjobs).
  - vm_compute. discriminate.
  - reflexivity.
  - split; [exact Hr|].
    rewrite (Hjobs eq_refl). reflexivity.
Defined.

End Reschedule.

(** ** Starting all monitors through the queue *)

Section StartAll.
Import QueueManager.







End StartAll.

(** ** Outstanding jobs per monitor *)

Section OneJobPerMonitor.
Import QueueManager.

Lemma jobsOf_fmap_le (h : Job → Job) (x : Z) (l : list Job) (c c' : N) :
  (∀ j, j ∈ l → job_monitorId (h j) = job_monitorId j
               ∧ (outstanding (h j) → outstanding j)) →
  (length (jobsOf x {| q_jobs := h <$> l; q_counter := c |})
   ≤ length (jobsOf x {| q_jobs := l; q_counter := c' |}))%nat.
Proof.
  unfold jobsOf. simpl. induction l as [|a l IH]; intros Hh; [done|].
  assert (IH' := IH (λ j Hj, Hh j ltac:(by right))).
  destruct (Hh a ltac:(by left)) as [Hid Hout].
  rewrite fmap_cons, !filter_cons.
  repeat case_decide; simpl; try lia.
  exfalso. rewrite Hid in *. naive_solver.
Qed.

Lemma jobsOf_update_le (jid : JobId) (st : JobState) (f : Job → Job)
    (x : Z) (q : Queue) :
  (∀ j, job_state j = st → job_monitorId (f j) = job_monitorId j
                            ∧ (outstanding (f j) → outstanding j)) →
  (length (jobsOf x (update_job jid st f q)) ≤ length (jobsOf x q))%nat.
Proof.
  intros Hf. destruct q as [l c]. unfold update_job. simpl.
  apply jobsOf_fmap_le. intros j _. case_decide; [|done]. naive_solver.
Qed.

Lemma Worker_take_spec (jid : JobId) (w w1 : World) (job : Job) :
  Worker_take jid w = Some (job, w1) →
  ∃ j0, j0 ∈ q_jobs (broker w) ∧ job_id j0 = jid
      ∧ (job_state j0 = waiting ∨ job_state j0 = delayed)
      ∧ job = with_state active j0
      ∧ w1 = set_broker (update_job jid (job_state j0) (with_state active) (broker w)) w.
Proof.
  unfold Worker_take. destruct (List.find _ _) as [j0|] eqn:Hfind; [|done].
  intros [= <- <-]. exists j0.
  apply find_some in Hfind as [Hin Hb]. apply andb_prop in Hb as [Hid Hdue].
  apply bool_decide_eq_true in Hid. rewrite <-list_elem_of_In in Hin.
  repeat split; try done.
  unfold due in Hdue. destruct (job_state j0); auto; done.
Qed.

(** Completing the only outstanding job of a monitor leaves it none of
    the jobs that were there. *)
Lemma settle_done_clears (l : list Job) (jid : JobId) (x : Z) (j0 : Job)
    (f : Job → Job) :
  (length (filter (λ j, job_monitorId j = x ∧ outstanding j) l) ≤ 1)%nat →
  j0 ∈ l → job_id j0 = jid → job_state j0 = active → job_monitorId j0 = x →
  (∀ j, ¬ outstanding (f j)) →
  filter (λ j, job_monitorId j = x ∧ outstanding j)
    ((λ j, if decide (job_id j = jid ∧ job_state j = active)
           then f j else j) <$> l) = [].
Proof.
  intros Hlen Hin Hid Hst Hx Hf.
  assert (filter (λ j, job_monitorId j = x ∧ outstanding j) l = [j0]) as Hone.
  { assert (j0 ∈ filter (λ j, job_monitorId j = x ∧ outstanding j) l) as Hj0.
    { apply list_elem_of_filter. unfold outstanding. auto. }
    destruct (filter _ l) as [|a [|b t]]; simpl in Hlen.
    - by apply elem_of_nil in Hj0.
    - by apply list_elem_of_singleton in Hj0 as ->.
    - lia. }
  destruct (filter _ (_ <$> l)) as [|j' t] eqn:Hfl; [done|]. exfalso.
  assert (j' ∈ j' :: t) as Hj' by left. rewrite <-Hfl in Hj'.
  apply list_elem_of_filter in Hj' as [[Hx' Hout] Hj'].
  apply list_elem_of_fmap in Hj' as (j & -> & Hj).
  case_decide as Hdec.
  - by apply Hf in Hout.
  - apply Hdec.
    assert (j ∈ filter (λ j, job_monitorId j = x ∧ outstanding j) l) as Hjf
      by (by apply list_elem_of_filter).
    rewrite Hone in Hjf. by apply list_elem_of_singleton in Hjf as ->.
Qed.

Lemma stopMonitor_db (monitorId : Z) (w : World) : db (stopMonitor monitorId w) = db w.
Proof.
  unfold stopMonitor. generalize (filter (λ j, job_monitorId j = monitorId)
                                    (Queue_getJobs_pending (broker w))).
  intros js. revert w. induction js as [|j js IH]; intros w; [done|].
  simpl. by rewrite IH.
Qed.

End OneJobPerMonitor.


(** ** A check that throws *)

Section FailedCheck.
Import QueueManager.

(** A processor run in which the check throws asks the queue for nothing. *)
Lemma thrown_check_schedules_nothing (job : Job) (ms : Z) (e : string) (w : World) :
  broker (processMonitorJob job (BeatThrows ms e) w).2 = broker w
  ∧ ∀ nm i o t, CallQueueAdd nm i o t ∈ calls (processMonitorJob job (BeatThrows ms e) w).2 →
               CallQueueAdd nm i o t ∈ calls w.
Proof.
  unfold processMonitorJob. destruct (R_findOne_active _ _); [|done]. simpl.
  split; [done|]. intros nm i o t Hin.
  apply elem_of_app in Hin as [?|Hin]; [done|].
  by apply list_elem_of_singleton in Hin.
Qed.

(** A worker finds nothing to take in a queue without waiting or delayed
    jobs. *)
Lemma Worker_take_nothing_pending (jid : JobId) (w : World) :
  (∀ j, j ∈ q_jobs (broker w) → job_state j ≠ waiting ∧ job_state j ≠ delayed) →
  Worker_take jid w = None.
Proof.
  intros Hnone. unfold Worker_take.
  destruct (List.find _ _) as [j|] eqn:Hfind; [|done].
  apply find_some in Hfind as [Hin Hb]. apply andb_prop in Hb as [_ Hdue].
  rewrite <-list_elem_of_In in Hin. destruct (Hnone j Hin) as [Hw Hd].
  unfold due in Hdue. by destruct (job_state j).
Qed.

(** C2 on the code: monitor 7 (interval 60 s) has its one job in the queue
    and its check throws at every attempt.  The queue retries after 2000
    and 4000 ms, marks the job failed after the third attempt, and no other
    job for monitor 7 exists: nothing was scheduled at the normal interval,
    and no later worker run finds a job to take. *)
Theorem failed_check_is_not_rescheduled :
  let monitor := {| m_id := 7; m_name := "web"; m_interval := 60;
                    m_active := true; m_url := "https://a.test/";
                    m_remote_browser := None; m_user_id := 1 |} in
  let w0 := {| clock := 0; db := [monitor];
               broker := {| q_jobs := []; q_counter := 0 |};
               monitorList := ∅; calls := [] |} in
  let w1 := startAllMonitors (λ _, 0%Q) w0 in
  let jid := CustomId (uniqueJobId 7 0) in
  let boom := BeatThrows 100 "connect ECONNREFUSED" in
  let w2 := Worker_run jid boom w1 in
  let w3 := Worker_run jid boom (elapse 2000 w2) in
  let w4 := Worker_run jid boom (elapse 4000 w3) in
  (job_id <$> q_jobs (broker w1)) = [jid]
  ∧ ((λ j, (job_state j, job_attemptsMade j, job_runAt j)) <$> q_jobs (broker w2))
    = [(delayed, 1%nat, inject_Z 2100)]
  ∧ ((λ j, (job_state j, job_attemptsMade j, job_runAt j)) <$> q_jobs (broker w3))
    = [(delayed, 2%nat, inject_Z 6200)]
  ∧ ((λ j, (job_state j, job_attemptsMade j)) <$> q_jobs (broker w4))
    = [(failed, 3%nat)]
  ∧ jobsOf 7 (broker w4) = []
  ∧ ∀ ms jid' beat, broker (Worker_run jid' beat (elapse ms w4)) = broker w4.
Proof.
  intros monitor w0 w1 jid boom w2 w3 w4.
  repeat split; try reflexivity.
  intros ms jid' beat.
  assert (job_state <$> q_jobs (broker w4) = [failed]) as Hstates
    by (vm_compute; reflexivity).
  clearbody w4. clear -Hstates.
  unfold Worker_run. rewrite Worker_take_nothing_pending; [reflexivity|].
  intros j Hj.
  assert (job_state j ∈ job_state <$> q_jobs (broker w4)) as Hin
    by (apply list_elem_of_fmap_2; exact Hj).
  rewrite Hstates in Hin. apply list_elem_of_singleton in Hin.
  rewrite Hin. split; discriminate.
Qed.

End FailedCheck.

(** ** Falling back to the traditional mode *)

Section Fallback.
Import QueueIntegration.

(** A world reached by the traditional path only: same queue, and the new
    calls are none of the queue's. *)
Let traditional (w w' : World) : Prop :=
  broker w' = broker w
  ∧ ∃ l, calls w' = calls w ++ l ∧ Forall (λ c, queue_call c = false) l.

Lemma traditional_same (w w' : World) :
  broker w' = broker w → calls w' = calls w → traditional w w'.
Proof. intros Hb Hc. split; [done|]. exists []. by rewrite app_nil_r. Qed.

Lemma traditional_refl (w : World) : traditional w w.
Proof. by apply traditional_same. Qed.

Lemma traditional_trans (w1 w2 w3 : World) :
  traditional w1 w2 → traditional w2 w3 → traditional w1 w3.
Proof.
  intros [Hb1 (l1 & Hc1 & Hl1)] [Hb2 (l2 & Hc2 & Hl2)]. split; [congruence|].
  exists (l1 ++ l2). rewrite Hc2, Hc1, app_assoc. split; [done|].
  by apply Forall_app.
Qed.

Lemma traditional_call (c : Call) (w : World) :
  queue_call c = false → traditional w (call c w).
Proof. intros Hc. split; [done|]. exists [c]. split; [done|]. by constructor. Qed.

Lemma traditional_foldl {A} (step : World → A → World) (l : list A) (w : World) :
  (∀ w a, traditional w (step w a)) → traditional w (foldl step w l).
Proof.
  intros Hstep. revert w. induction l as [|a l IH]; intros w; simpl.
  - apply traditional_refl.
  - eapply traditional_trans; [apply Hstep|apply IH].
Qed.

Lemma startMonitorsTraditional_traditional (o : Oracle) (w : World) :
  traditional w (startMonitorsTraditional o w).
Proof.
  unfold startMonitorsTraditional.
  match goal with |- traditional _ (foldl ?s2 (foldl ?s1 ?w0 ?l1) ?l2) =>
    apply (traditional_trans w (foldl s1 w0 l1));
      [apply (traditional_foldl s1)|apply (traditional_foldl s2)]
  end.
  - intros w' m. by apply traditional_same.
  - intros w' [k m]. simpl.
    eapply traditional_trans; [by apply (traditional_call (CallMonitorStart (m_id m)))|].
    eapply traditional_trans; [by apply (traditional_call (CallSleep (randomInt o k)))|].
    by apply traditional_same.
Qed.

(** Once [isQueueMode] is false, no method changes the facade, calls the
    queue manager or builds one. *)
Lemma step_traditional (op : Op) (o : Oracle) (f : Facade) (w : World) :
  isQueueMode f = false → queueManager f = None →
  (step op o (f, w)).1 = f ∧ traditional w (step op o (f, w)).2.
Proof.
  intros Hmode Hqm.
  assert (queue_path f = None) as Hpath by (unfold queue_path; by rewrite Hmode).
  destruct op; simpl.
  - unfold initialize. rewrite Hmode. simpl. split; [done|apply traditional_refl].
  - unfold startAllMonitors, initialize. rewrite Hmode. simpl. rewrite Hpath.
    split; [done|apply startMonitorsTraditional_traditional].
  - split; [done|]. unfold startMonitor. rewrite Hpath.
    destruct (R_findOne _ _); [by apply traditional_call|apply traditional_refl].
  - split; [done|]. unfold stopMonitor. rewrite Hpath.
    destruct (monitorList w !! _); [|apply traditional_refl].
    eapply traditional_trans; [by apply (traditional_call (CallMonitorStop monitorId))|].
    by apply traditional_same.
  - split; [done|]. unfold getStats. rewrite Hpath. apply traditional_refl.
  - split; [done|]. unfold healthCheck. rewrite Hmode. apply traditional_refl.
  - split; [done|]. unfold shutdown. rewrite Hqm. apply traditional_refl.
Qed.

Lemma run_traditional (ops : list (Op * Oracle)) (f : Facade) (w : World) :
  isQueueMode f = false → queueManager f = None →
  (run ops (f, w)).1 = f ∧ traditional w (run ops (f, w)).2.
Proof.
  intros Hmode Hqm. unfold run. revert w.
  induction ops as [|[op o] ops IH]; intros w; cbn [foldl fst snd].
  - split; [done|apply traditional_refl].
  - pose proof (step_traditional op o f w Hmode Hqm) as [Hf Ht].
    destruct (step op o (f, w)) as [f' w']. cbn [fst snd] in Hf, Ht. subst f'.
    destruct (IH w') as [Hf' Ht']. split; [done|].
    by eapply traditional_trans.
Qed.

(** C3: when [new QueueManager()] throws inside [initialize()], the facade
    records the one failed construction and sets [isQueueMode] to false;
    whatever methods are called afterwards, with whatever answers of the
    environment, [isQueueMode] stays false, no queue manager is built or
    called, the queue is not touched, and [getStats()] reports mode
    ["traditional"]; every later call takes the traditional branch:
    [startMonitor] calls [monitor.start] on the row it finds,
    [startAllMonitors] is [startMonitorsTraditional], and [stopMonitor]
    calls [stop()] on the registered monitor and deletes it from
    [server.monitorList]. *)
Theorem fallback_is_permanent (o : Oracle) (f : Facade) (w : World)
    (ops : list (Op * Oracle)) :
  isQueueMode f = true → isInitialized f = false → queueManager f = None →
  ctor_throws o = true →
  let fw1 := initialize o f w in
  let fw2 := run ops fw1 in
  calls fw1.2 = calls w ++ [NewQueueManager true]
  ∧ isQueueMode fw1.1 = false
  ∧ isQueueMode fw2.1 = false
  ∧ queueManager fw2.1 = None
  ∧ queue_path fw2.1 = None
  ∧ broker fw2.2 = broker w
  ∧ (∃ l, calls fw2.2 = calls fw1.2 ++ l ∧ Forall (λ c, queue_call c = false) l)
  ∧ (∀ o', ∃ stats, (getStats o' fw2.1 fw2.2).1 = inr stats
                   ∧ mode stats = "traditional" ∧ redis stats = false)
  ∧ (∀ o', h_status (healthCheck o' fw2.1 fw2.2).1 = "disabled")
  ∧ (∀ o' monitorId,
       startMonitor monitorId fw2.1 fw2.2
       = match R_findOne (db fw2.2) monitorId with
         | Some monitor => call (CallMonitorStart (m_id monitor)) fw2.2
         | None => fw2.2
         end
       ∧ (startAllMonitors o' fw2.1 fw2.2).2 = startMonitorsTraditional o' fw2.2
       ∧ stopMonitor monitorId fw2.1 fw2.2
         = match monitorList fw2.2 !! monitorId with
           | Some _ => set_monitorList (delete monitorId (monitorList fw2.2))
                         (call (CallMonitorStop monitorId) fw2.2)
           | None => fw2.2
           end).
Proof.
  intros Hmode Hinit Hqm Hthrow fw1 fw2.
  assert (fw1 = ({| queueManager := None; isQueueMode := false;
                    isInitialized := false |}, call (NewQueueManager true) w))
    as Hfw1.
  { unfold fw1, initialize. by rewrite Hmode, Hinit, Hthrow, Hqm. }
  unfold fw2. rewrite Hfw1. clear fw2.
  match goal with |- context [run ops (?f1, ?w1)] =>
    pose proof (run_traditional ops f1 w1 eq_refl eq_refl) as [Hf [Hb Hc]];
    destruct (run ops (f1, w1)) as [f2 w2]
  end.
  simpl in Hf, Hb, Hc. subst f2. simpl.
  repeat split; try done.
  intros o'. eexists. unfold getStats. simpl. done.
Qed.

(** The theorem at a facade built with [ENABLE_QUEUE_MODE=true] whose
    queue manager cannot be built, followed by a bulk start and a start of
    monitor 7: a stop of monitor 7 then calls [stop()] on it and removes
    it from [server.monitorList]. *)
Lemma fallback_is_permanent_witness :
  let o := {| ctor_throws := true; random := λ _, 0%Q;
              randomInt := λ _, 300; stats_throws := None |} in
  let w := {| clock := 0;
              db := [{| m_id := 7; m_name := "web"; m_interval := 60;
                        m_active := true; m_url := "https://a.test/";
                        m_remote_browser := None; m_user_id := 1 |}];
              broker := {| q_jobs := []; q_counter := 0 |};
              monitorList := ∅; calls := [] |} in
  let ops := [(StartAllMonitors, o); (StartMonitor 7, o)] in
  let fw := run ops (initialize o (constructor (Some "true")) w) in
  isQueueMode fw.1 = false
  ∧ calls (stopMonitor 7 fw.1 fw.2)
    = [NewQueueManager true; CallMonitorStart 7; CallSleep 300;
       CallMonitorStart 7; CallMonitorStop 7]
  ∧ monitorList (stopMonitor 7 fw.1 fw.2) !! 7 = None.
Proof.
  intros o w ops fw.
  destruct (fallback_is_permanent o (constructor (Some "true")) w ops)
    as (_ & _ & Hmode & _ & _ & _ & _ & _ & _ & Hcalls); [reflexivity..|].
  destruct (Hcalls o 7) as (_ & _ & Hstop).
  split; [exact Hmode|].
  unfold fw. rewrite Hstop. split; vm_compute; reflexivity.
Defined.

End Fallback.

(** ** The browser check *)

Section BrowserFacts.
Import RealBrowser.

Lemma bind_Ok {A B} (m : M A) (k : A → M B) (s s' : State) (a : A) :
  m s = (Ok a, s') → (m ≫= k) s = k a s'.
Proof. unfold mbind, M_bind. by intros ->. Qed.

Lemma bind_Throw {A B} (m : M A) (k : A → M B) (s s' : State) (e : string) :
  m s = (Throw e, s') → (m ≫= k) s = (Throw e, s').
Proof. unfold mbind, M_bind. by intros ->. Qed.

Section Emits.
Context (P : BCall → Prop).

Lemma emits_only_ret {A} (a : A) : emits_only P (mret a : M A).
Proof. intros s. exists []. by rewrite app_nil_r. Qed.

Lemma emits_only_throw {A} (e : string) : emits_only P (throw e : M A).
Proof. intros s. exists []. by rewrite app_nil_r. Qed.

Lemma emits_only_bind {A B} (m : M A) (k : A → M B) :
  emits_only P m → (∀ a, emits_only P (k a)) → emits_only P (m ≫= k).
Proof.
  intros Hm Hk s. destruct (Hm s) as (l & Hl & HP).
  destruct (m s) as [[a|e] s'] eqn:Hms; simpl in Hl.
  - rewrite (bind_Ok _ _ _ _ _ Hms). destruct (Hk a s') as (l' & Hl' & HP').
    exists (l ++ l'). rewrite Hl', Hl, app_assoc. split; [done|].
    by apply Forall_app.
  - rewrite (bind_Throw _ _ _ _ _ Hms). eauto.
Qed.

Lemma emits_only_emit (c : BCall) : P c → emits_only P (emit c).
Proof. intros Hc s. exists [c]. split; [done|]. by constructor. Qed.

Lemma emits_only_quiet {A} (m : M A) :
  (∀ s, trace (m s).2 = trace s) → emits_only P m.
Proof. intros Hm s. exists []. by rewrite app_nil_r. Qed.

Lemma emits_only_of_result {A} (r : Result A) : emits_only P (of_result r).
Proof. destruct r; [apply emits_only_ret|apply emits_only_throw]. Qed.

Lemma emits_only_may_throw (c : BCall) (o : option string) :
  P c → emits_only P (may_throw c o).
Proof.
  intros Hc. apply emits_only_bind; [by apply emits_only_emit|].
  intros _. destruct o; [apply emits_only_throw|apply emits_only_ret].
Qed.

Lemma emits_only_try_log (m : M unit) : emits_only P m → emits_only P (try_log m).
Proof.
  intros Hm s. destruct (Hm s) as (l & Hl & HP). exists l. split; [|done].
  unfold try_log. by destruct (m s) as [[[]|e] s'].
Qed.

End Emits.

(** Walks through a computation built from the monad's operations. *)
Ltac emits :=
  repeat first
    [ progress intros
    | apply emits_only_bind
    | apply emits_only_ret
    | apply emits_only_throw
    | apply emits_only_of_result
    | apply emits_only_may_throw
    | apply emits_only_emit
    | apply emits_only_try_log
    | (apply emits_only_quiet; done)
    | case_match ].

Lemma acquire_emits (P : BCall → Prop) (E : Env) (monitor : Monitor) :
  (∀ c, acquisition c → P c) → emits_only P (acquire E monitor).
Proof.
  intros HP.
  unfold acquire, getBrowser, getRemoteBrowser, launchBrowser,
    prepareChromeExecutable, installChromium, findChrome, findChrome_loop,
    get_browser, get_last.
  emits; by apply HP.
Qed.

(** *** A concrete environment

    A Linux host on which [/usr/bin/chromium] exists, a reachable remote
    browser, and a page that loads; [g] is what [page.goto] answers. *)

Let chromium : Browser := {| handle := 1; endpoint := None |}.

Let host (g : string → Result Response) : Env :=
  {| allowedList := ["chromium"; "chromium-browser"; "google-chrome";
                     "/usr/bin/chromium"; "/usr/bin/chromium-browser";
                     "/usr/bin/google-chrome"; "/snap/bin/chromium"];
     allow_all_chrome_exec := false;
     is_container := false;
     chromeExecutable := None;
     commandExists := λ p, bool_decide (p = "/usr/bin/chromium");
     apt_exit_code := 0;
     isConnected := λ _, true;
     launch := λ _, Ok chromium;
     RemoteBrowser_get := λ i _, Ok (Some {| rb_id := i; rb_name := "grid";
                                             rb_url := "ws://grid:3000" |});
     connect := λ u, Ok {| handle := 2; endpoint := Some u |};
     url_rest_valid := λ _, true;
     hmac_sha256 := hmac_examples;
     screenshotDir := "./data/screenshots/";
     videoDir := "./data/video/";
     newContext := None;
     newPage := None;
     goto := g;
     waitForTimeout := None;
     screenshot := None;
     page_video := true;
     page_close := None;
     video_saveAs := None;
     context_close := None |}.

Let loads : string → Result Response :=
  λ _, Ok {| status := 200; responseEnd := 12 |}.

Let fresh : State :=
  {| browser := None; lastAutoDetectChromeExecutable := None;
     heartbeat := {| hb_status := None; hb_msg := None; hb_ping := None |};
     trace := [] |}.

Let page (i : Z) (u : string) (rb : option Z) : Monitor :=
  {| m_id := i; m_name := "page"; m_interval := 60; m_active := true;
     m_url := u; m_remote_browser := rb; m_user_id := 1 |}.

(** *** Rejecting other URL schemes *)

(** C5, as the code has it: a monitor whose URL has a scheme other than
    http: and https: makes [check] throw, and the state it leaves is the
    state right after the browser was obtained: the calls made are those
    of obtaining the browser (reusing, launching or connecting), and no
    context, page or navigation follows.  When the browser was obtained
    the error is the protocol error (or the URL parser's). *)
Theorem other_scheme_rejected_before_context
    (E : Env) (monitor : Monitor) (jwtSecret : string) (s : State)
    (protocol : string) :
  URL_protocol (m_url monitor) = Some protocol →
  protocol ≠ "http:" → protocol ≠ "https:" →
  let a := acquire E monitor s in
  let r := check E monitor jwtSecret s in
  r.2 = a.2
  ∧ (∃ l, trace r.2 = trace s ++ l ∧ Forall acquisition l)
  ∧ match a.1 with
    | Ok _ =>
        r.1 = Throw (if url_rest_valid E (m_url monitor)
                     then "Invalid url protocol, only http and https are allowed."
                     else "TypeError: Invalid URL")
    | Throw e => r.1 = Throw e
    end.
Proof.
  intros Hurl Hhttp Hhttps a r.
  assert (r.2 = a.2 ∧ match a.1 with
    | Ok _ =>
        r.1 = Throw (if url_rest_valid E (m_url monitor)
                     then "Invalid url protocol, only http and https are allowed."
                     else "TypeError: Invalid URL")
    | Throw e => r.1 = Throw e
    end) as [Hst Hres].
  { unfold r, a, check. destruct (acquire E monitor s) as [[b|e] s1] eqn:Ha.
    - rewrite (bind_Ok _ _ _ _ _ Ha). cbn beta.
      unfold new_URL. rewrite Hurl.
      destruct (url_rest_valid E (m_url monitor)); [|done].
      rewrite (bind_Ok (mret protocol) _ s1 s1 protocol eq_refl).
      by rewrite !bool_decide_eq_true_2.
    - by rewrite (bind_Throw _ _ _ _ _ Ha). }
  split; [done|]. split; [|done].
  rewrite Hst. by apply (acquire_emits acquisition).
Qed.

(** The theorem at a monitor of [file:///etc/passwd]. *)
Lemma other_scheme_rejected_before_context_witness :
  (check (host loads) (page 7 "file:///etc/passwd" None) "secret" fresh).2
  = (acquire (host loads) (page 7 "file:///etc/passwd" None) fresh).2.
Proof.
  destruct (other_scheme_rejected_before_context (host loads)
              (page 7 "file:///etc/passwd" None) "secret" fresh "file:")
    as (H & _); [reflexivity|discriminate|discriminate|exact H].
Defined.

(** C5 as stated fails: the browser is obtained first.  For a monitor of
    [file:///etc/passwd] and no browser running yet, [check] launches
    Chromium and stores it in the module's variable, and only then throws
    the protocol error. *)
Lemma other_scheme_launches_browser_first :
  let r := check (host loads) (page 7 "file:///etc/passwd" None) "secret" fresh in
  r.1 = Throw "Invalid url protocol, only http and https are allowed."
  ∧ trace r.2 = [Launch (Some "/usr/bin/chromium")]
  ∧ browser r.2 = Some chromium
  ∧ ¬ (trace r.2 = trace fresh).
Proof. repeat split; try reflexivity. discriminate. Qed.

(** *** Closing the context *)

(** C4 on the code: when [page.goto] throws (here its timeout), [check]
    ends with that error after opening a context and a page, and
    [context.close()] is never called: one context stays open.  The path
    on which the page answers, here with status 503, does close it. *)
Theorem navigation_timeout_leaves_context_open :
  let monitor := page 7 "https://a.test/" None in
  let timeout := λ _ : string, Throw "page.goto: Timeout 30000ms exceeded." in
  let answers := λ _ : string, Ok {| status := 503; responseEnd := 12 |} in
  let r := check (host timeout) monitor "secret" fresh in
  let r' := check (host answers) monitor "secret" fresh in
  r.1 = Throw "page.goto: Timeout 30000ms exceeded."
  ∧ trace r.2 = [Launch (Some "/usr/bin/chromium");
                 NewContext chromium "./data/video/"; NewPage;
                 Goto "https://example.com" "networkidle" 30000]
  ∧ (ContextClose ∉ trace r.2)
  ∧ open_contexts (trace r.2) = 1
  ∧ r'.1 = Throw "503"
  ∧ last (trace r'.2) = Some ContextClose
  ∧ open_contexts (trace r'.2) = 0.
Proof.
  repeat split; try reflexivity.
  apply (bool_decide_unpack _). vm_compute. exact I.
Qed.

(** *** The page that is loaded *)

(** Every navigation [check] starts goes to [testUrl], waits for the
    network to be idle and is given 30 seconds. *)
Lemma check_goto_target (E : Env) (monitor : Monitor) (jwtSecret : string) :
  emits_only (λ c, ∀ u w t, c = Goto u w t →
                u = "https://example.com" ∧ w = "networkidle" ∧ t = 30000)
    (check E monitor jwtSecret).
Proof.
  unfold check. apply emits_only_bind; [by apply acquire_emits; intros []|].
  intros b. unfold new_URL, saveVideo, set_heartbeat, testUrl.
  emits; try done.
  match goal with H : Goto _ _ _ = Goto _ _ _ |- _ => by injection H as <- <- <- end.
Qed.

(** The result derivation: when [check] returns, the page that was loaded
    answered with a status in [200, 400), and the heartbeat is up with that
    status and the response-end time of that answer. *)
Lemma check_returns_up (E : Env) (monitor : Monitor) (jwtSecret : string)
    (s s' : State) :
  check E monitor jwtSecret s = (Ok (), s') →
  ∃ res, goto E testUrl = Ok res
       ∧ 200 ≤ status res < 400
       ∧ heartbeat s' = {| hb_status := Some UP; hb_msg := Some (status res);
                           hb_ping := Some (responseEnd res) |}.
Proof.
  unfold check. intros H.
  repeat match type of H with
  | (?m ≫= ?k) ?st = _ =>
      let Hm := fresh "Hm" in
      destruct (m st) as [[?|?] ?] eqn:Hm;
        [rewrite (bind_Ok _ _ _ _ _ Hm) in H; cbn beta in H
        |by rewrite (bind_Throw _ _ _ _ _ Hm) in H]
  | (if ?b then throw _ else _) _ = _ => destruct b eqn:?; [done|]
  end.
  destruct (_ && _) eqn:Hst in H; [|done].
  match goal with Hg : of_result (goto E testUrl) _ = (Ok ?r, _) |- _ =>
    exists r; destruct (goto E testUrl) as [res|e]; [|done];
    injection Hg as -> _
  end.
  apply andb_prop in Hst as [Hlo Hhi].
  apply Z.leb_le in Hlo. apply Z.ltb_lt in Hhi.
  repeat split; try done. by injection H as <-.
Qed.

(** C6 on the code: the monitor's target answers 503 and example.com
    answers 200.  [check] never navigates to the target; it loads
    [https://example.com] with the network-idle condition and the 30 s
    timeout, and reports the monitor up, with the status and the
    response-end time of example.com. *)
Theorem check_navigates_to_example_com :
  let monitor := page 7 "https://intranet.test/health" None in
  let g := λ u : string,
    if bool_decide (u = "https://intranet.test/health")
    then Ok {| status := 503; responseEnd := 40 |}
    else Ok {| status := 200; responseEnd := 12 |} in
  let r := check (host g) monitor "secret" fresh in
  r.1 = Ok ()
  ∧ heartbeat r.2 = {| hb_status := Some UP; hb_msg := Some 200;
                       hb_ping := Some (12 : Q) |}
  ∧ filter (λ c, navigates c = true) (trace r.2)
    = [Goto "https://example.com" "networkidle" 30000]
  ∧ ∀ w t, Goto (m_url monitor) w t ∉ trace r.2.
Proof.
  intros monitor g r.
  assert (trace r.2 = [Launch (Some "/usr/bin/chromium");
                       NewContext chromium "./data/video/"; NewPage;
                       Goto "https://example.com" "networkidle" 30000;
                       WaitForTimeout 5000;
                       Screenshot (screenshotPath (host g) monitor "secret");
                       PageVideo; PageClose;
                       VideoSaveAs (videoPath (host g) monitor "secret");
                       Sleep 1000; ContextClose]) as Htrace by reflexivity.
  repeat split; try reflexivity.
  intros w t. rewrite Htrace. intros Hin.
  repeat (apply elem_of_cons in Hin as [Hin|Hin]; [done|]).
  by apply elem_of_nil in Hin.
Qed.

(** *** The shared browser variable *)

Lemma keeps_browser_ret {A} (a : A) : keeps_browser (mret a : M A).
Proof. done. Qed.

Lemma keeps_browser_throw {A} (e : string) : keeps_browser (throw e : M A).
Proof. done. Qed.

Lemma keeps_browser_bind {A B} (m : M A) (k : A → M B) :
  keeps_browser m → (∀ a, keeps_browser (k a)) → keeps_browser (m ≫= k).
Proof.
  intros Hm Hk s. specialize (Hm s).
  destruct (m s) as [[a|e] s'] eqn:Hms; simpl in Hm.
  - rewrite (bind_Ok _ _ _ _ _ Hms). by rewrite Hk.
  - by rewrite (bind_Throw _ _ _ _ _ Hms).
Qed.

Lemma keeps_browser_emit (c : BCall) : keeps_browser (emit c).
Proof. done. Qed.

Lemma keeps_browser_of_result {A} (r : Result A) : keeps_browser (of_result r).
Proof. by destruct r. Qed.

Lemma keeps_browser_may_throw (c : BCall) (o : option string) :
  keeps_browser (may_throw c o).
Proof.
  apply keeps_browser_bind; [apply keeps_browser_emit|]. intros _. by destruct o.
Qed.

Lemma keeps_browser_try_log (m : M unit) :
  keeps_browser m → keeps_browser (try_log m).
Proof.
  intros Hm s. specialize (Hm s). unfold try_log.
  by destruct (m s) as [[[]|e] s'].
Qed.

Lemma keeps_browser_set_heartbeat (h : Heartbeat) : keeps_browser (set_heartbeat h).
Proof. done. Qed.

Ltac keeps :=
  repeat first
    [ progress intros
    | apply keeps_browser_bind
    | apply keeps_browser_ret
    | apply keeps_browser_throw
    | apply keeps_browser_of_result
    | apply keeps_browser_may_throw
    | apply keeps_browser_emit
    | apply keeps_browser_try_log
    | apply keeps_browser_set_heartbeat
    | case_match ].

(** After the browser is obtained, [check] does not assign the variable
    again. *)
Lemma check_browser_after_acquire (E : Env) (monitor : Monitor)
    (jwtSecret : string) (s : State) :
  browser (check E monitor jwtSecret s).2 = browser (acquire E monitor s).2.
Proof.
  unfold check. destruct (acquire E monitor s) as [[b|e] s1] eqn:Ha.
  - rewrite (bind_Ok _ _ _ _ _ Ha). cbn beta.
    match goal with |- browser (?m s1).2 = _ =>
      cut (keeps_browser m); [intros Hk; apply Hk|]
    end.
    unfold new_URL, saveVideo. keeps.
  - by rewrite (bind_Throw _ _ _ _ _ Ha).
Qed.

(** With a connected browser in the variable, a check without a remote
    browser obtains that browser and calls nothing. *)
Lemma acquire_reuses_connected (E : Env) (monitor : Monitor) (s : State)
    (b : Browser) :
  m_remote_browser monitor = None →
  browser s = Some b → isConnected E b = true →
  acquire E monitor s = (Ok b, s).
Proof.
  intros Hrb Hb Hc. unfold acquire. rewrite Hrb.
  unfold getBrowser, get_browser, mbind, M_bind. by rewrite Hb, Hc.
Qed.

(** A call that is made, then anything: the call is in the trace. *)
Lemma may_throw_then {A} (c : BCall) (o : option string) (k : unit → M A)
    (s : State) :
  (∀ u, emits_only (λ _, True) (k u)) →
  ∃ l, trace ((may_throw c o ≫= k) s).2 = trace s ++ c :: l.
Proof.
  intros Hk. unfold may_throw, mbind, M_bind, emit, mret, M_ret, throw.
  destruct o as [e|]; simpl; [by exists []|].
  match goal with |- ∃ l, trace (k () ?s').2 = _ =>
    destruct (Hk () s') as (l & Hl & _)
  end.
  exists l. rewrite Hl. simpl. by rewrite <-app_assoc.
Qed.

(** C10: a check through a remote browser leaves the connection in the
    module's [browser] variable, whatever happens in the rest of the
    check; a later check of a monitor without remote browser, made while
    that connection reports connected, gets it from [getBrowser()], launches
    nothing, and opens its context in the remote browser. *)
Theorem remote_browser_served_to_local_check
    (E E' : Env) (m1 m2 : Monitor) (jwtSecret : string) (s : State)
    (rb : Z) (row : RemoteBrowserRow) (nb : Browser) :
  m_remote_browser m1 = Some rb → rb ≠ 0 →
  RemoteBrowser_get E rb (m_user_id m1) = Ok (Some row) →
  connect E (rb_url row) = Ok nb →
  m_remote_browser m2 = None →
  isConnected E' nb = true →
  let s1 := (check E m1 jwtSecret s).2 in
  browser s1 = Some nb
  ∧ getBrowser E' s1 = (Ok nb, s1)
  ∧ acquire E' m2 s1 = (Ok nb, s1)
  ∧ (∃ l, trace (check E' m2 jwtSecret s1).2 = trace s1 ++ l
          ∧ Forall (λ c, ¬ acquisition c) l)
  ∧ (URL_protocol (m_url m2) = Some "http:" ∨ URL_protocol (m_url m2) = Some "https:" →
     url_rest_valid E' (m_url m2) = true →
     ∃ l, trace (check E' m2 jwtSecret s1).2
          = trace s1 ++ NewContext nb (videoDir E') :: l).
Proof.
  intros Hrb Hrb0 Hget Hconn Hloc Hlive s1.
  assert (browser s1 = Some nb) as Hb.
  { unfold s1. rewrite check_browser_after_acquire.
    unfold acquire. rewrite Hrb, bool_decide_eq_false_2 by done.
    unfold getRemoteBrowser. rewrite Hget.
    unfold of_result, mbind, M_bind, mret, M_ret, emit, set_browser. simpl.
    by rewrite Hconn. }
  pose proof (acquire_reuses_connected E' m2 s1 nb Hloc Hb Hlive) as Ha.
  split; [done|]. split.
  { unfold getBrowser, get_browser, mbind, M_bind. by rewrite Hb, Hlive. }
  split; [done|]. split.
  - unfold check. rewrite (bind_Ok _ _ _ _ _ Ha). cbn beta.
    match goal with |- ∃ l, trace (?m s1).2 = _ ∧ _ =>
      cut (emits_only (λ c, ¬ acquisition c) m); [intros Hm; apply Hm|]
    end.
    unfold new_URL, saveVideo, set_heartbeat.
    emits; by intros [].
  - intros Hurl Hrest. unfold check. rewrite (bind_Ok _ _ _ _ _ Ha). cbn beta.
    unfold new_URL.
    assert (∃ p, URL_protocol (m_url m2) = Some p
                 ∧ bool_decide (p ≠ "http:") && bool_decide (p ≠ "https:") = false)
      as (p & -> & Hp).
    { destruct Hurl as [->| ->]; eexists; split; done. }
    rewrite Hrest. rewrite (bind_Ok (mret p) _ s1 s1 p eq_refl). rewrite Hp.
    apply may_throw_then. intros _.
    unfold saveVideo, set_heartbeat. emits; done.
Qed.

(** The theorem at a first check through the remote browser [ws://grid:3000]
    and a second check of a monitor that names no remote browser. *)
Lemma remote_browser_served_to_local_check_witness :
  let remote := {| handle := 2; endpoint := Some "ws://grid:3000" |} in
  let s1 := (check (host loads) (page 7 "https://a.test/" (Some 3)) "secret" fresh).2 in
  browser s1 = Some remote
  ∧ getBrowser (host loads) s1 = (Ok remote, s1).
Proof.
  intros remote s1.
  destruct (remote_browser_served_to_local_check (host loads) (host loads)
              (page 7 "https://a.test/" (Some 3)) (page 8 "https://b.test/" None)
              "secret" fresh 3
              {| rb_id := 3; rb_name := "grid"; rb_url := "ws://grid:3000" |}
              remote)
    as (H1 & H2 & _); [reflexivity|lia|reflexivity..|].
  split; [exact H1|exact H2].
Defined.

(** *** Artifact paths *)

Lemma string_app_cons (x : ascii) (a b : string) :
  String x a +:+ b = String x (a +:+ b).
Proof. reflexivity. Qed.

Lemma string_app_assoc (a b c : string) : (a +:+ b) +:+ c = a +:+ (b +:+ c).
Proof. induction a as [|x a IH]; [done|]. rewrite !string_app_cons. by f_equal. Qed.

Lemma string_app_nil_r (a : string) : a +:+ "" = a.
Proof. induction a as [|x a IH]; [done|]. rewrite string_app_cons. by f_equal. Qed.

Lemma string_app_nonempty (a f : string) : f ≠ "" → a +:+ f ≠ "".
Proof. intros Hf. destruct a; [done|]. by rewrite string_app_cons. Qed.

Lemma list_ascii_of_string_app (a b : string) :
  list_ascii_of_string (a +:+ b) = list_ascii_of_string a ++ list_ascii_of_string b.
Proof. induction a as [|c a IH]; simpl; [done|]. by rewrite IH. Qed.

Lemma string_app_inj_r (a b suffix : string) :
  a +:+ suffix = b +:+ suffix → a = b.
Proof.
  intros Heq. apply (f_equal list_ascii_of_string) in Heq.
  rewrite !list_ascii_of_string_app in Heq. apply app_inv_tail in Heq.
  apply (f_equal string_of_list_ascii) in Heq.
  by rewrite !string_of_list_ascii_of_string in Heq.
Qed.

Lemma occurs_app (c : ascii) (a b : string) :
  occurs c (a +:+ b) = occurs c a || occurs c b.
Proof.
  induction a as [|x a IH]; [done|]. rewrite string_app_cons. cbn [occurs].
  rewrite <-orb_assoc. by f_equal.
Qed.

(** Two strings free of a separator are determined by what they are
    followed by the separator. *)
Lemma sep_inj (c : ascii) (a b s t : string) :
  occurs c a = false → occurs c b = false →
  a +:+ String c s = b +:+ String c t → a = b ∧ s = t.
Proof.
  revert b. induction a as [|x a IH]; intros [|y b];
    rewrite ?string_app_cons; cbn [occurs]; intros Ha Hb Heq.
  - change (String c s = String c t) in Heq. by injection Heq.
  - injection Heq as <- _. apply orb_false_elim in Hb as [Hb _].
    by apply bool_decide_eq_false in Hb.
  - injection Heq as -> _. apply orb_false_elim in Ha as [Ha _].
    by apply bool_decide_eq_false in Ha.
  - injection Heq as -> Heq.
    apply orb_false_elim in Ha as [_ Ha]. apply orb_false_elim in Hb as [_ Hb].
    by destruct (IH b Ha Hb Heq) as [-> ->].
Qed.

(** **** base64url *)

Lemma string_ind3 (P : string → Prop) :
  P "" → (∀ a, P (String a "")) → (∀ a b, P (String a (String b ""))) →
  (∀ a b c s, P s → P (String a (String b (String c s)))) →
  ∀ s, P s.
Proof.
  intros H0 H1 H2 H3.
  assert (∀ s, P s ∧ (∀ a, P (String a s)) ∧ (∀ a b, P (String a (String b s))))
    as H; [|intros s; apply H].
  induction s as [|c s (IH0 & IH1 & IH2)]; [auto|].
  split; [apply IH1|]. split; [intros a; apply IH2|].
  intros a b. apply H3, IH0.
Qed.

Lemma base64url_char_alphabet (n : N) : base64url_char n ∈ base64url_alphabet.
Proof.
  unfold base64url_char.
  destruct (decide (N.to_nat n < length base64url_alphabet)%nat) as [Hlt|Hge].
  - by apply nth_elem_of.
  - rewrite nth_overflow by lia. apply (bool_decide_unpack _). vm_compute. exact I.
Qed.

Lemma base64url_char_inj (n m : N) :
  (n < 64)%N → (m < 64)%N → base64url_char n = base64url_char m → n = m.
Proof.
  intros Hn Hm Heq. apply N2Nat.inj.
  assert (List.NoDup base64url_alphabet) as Hnd.
  { apply NoDup_ListNoDup, (bool_decide_unpack _). vm_compute. exact I. }
  eapply (proj1 (NoDup_nth _ _) Hnd); [| |exact Heq];
    change (length base64url_alphabet) with 64%nat; lia.
Qed.

Lemma N_sextets2 (n n' : N) :
  (n / 64 = n' / 64 → n mod 64 = n' mod 64 → n = n')%N.
Proof.
  intros H1 H2. rewrite (N.div_mod' n 64), (N.div_mod' n' 64). by rewrite H1, H2.
Qed.

Lemma N_sextets3 (n n' : N) :
  (n / 4096 = n' / 4096 → n / 64 mod 64 = n' / 64 mod 64 →
   n mod 64 = n' mod 64 → n = n')%N.
Proof.
  intros H1 H2 H3. apply N_sextets2; [|done]. apply N_sextets2; [|done].
  by rewrite !N.Div0.div_div.
Qed.

Lemma N_sextets4 (n n' : N) :
  (n / 262144 = n' / 262144 → n / 4096 mod 64 = n' / 4096 mod 64 →
   n / 64 mod 64 = n' / 64 mod 64 → n mod 64 = n' mod 64 → n = n')%N.
Proof.
  intros H1 H2 H3 H4. apply N_sextets2; [|done]. apply N_sextets3; [| |done].
  - by rewrite !N.Div0.div_div.
  - by rewrite !N.Div0.div_div.
Qed.

Lemma group1_inj (a a' : N) :
  (a < 256 → a' < 256 →
   base64url_char (a * 16 / 64) = base64url_char (a' * 16 / 64) →
   base64url_char ((a * 16) mod 64) = base64url_char ((a' * 16) mod 64) →
   a = a')%N.
Proof.
  intros Ha Ha' H1 H2.
  apply base64url_char_inj in H1;
    [|apply N.Div0.div_lt_upper_bound; lia..].
  apply base64url_char_inj in H2; [|by apply N.mod_upper_bound..].
  pose proof (N_sextets2 _ _ H1 H2). lia.
Qed.

Lemma group2_inj (a b a' b' : N) :
  (a < 256 → b < 256 → a' < 256 → b' < 256 →
   let n := a * 1024 + b * 4 in
   let n' := a' * 1024 + b' * 4 in
   base64url_char (n / 4096) = base64url_char (n' / 4096) →
   base64url_char (n / 64 mod 64) = base64url_char (n' / 64 mod 64) →
   base64url_char (n mod 64) = base64url_char (n' mod 64) →
   a = a' ∧ b = b')%N.
Proof.
  intros Ha Hb Ha' Hb' n n' H1 H2 H3.
  apply base64url_char_inj in H1;
    [|apply N.Div0.div_lt_upper_bound; unfold n, n'; lia..].
  apply base64url_char_inj in H2; [|by apply N.mod_upper_bound..].
  apply base64url_char_inj in H3; [|by apply N.mod_upper_bound..].
  pose proof (N_sextets3 _ _ H1 H2 H3). unfold n, n' in *. lia.
Qed.

Lemma group3_inj (a b c a' b' c' : N) :
  (a < 256 → b < 256 → c < 256 → a' < 256 → b' < 256 → c' < 256 →
   let n := a * 65536 + b * 256 + c in
   let n' := a' * 65536 + b' * 256 + c' in
   base64url_char (n / 262144) = base64url_char (n' / 262144) →
   base64url_char (n / 4096 mod 64) = base64url_char (n' / 4096 mod 64) →
   base64url_char (n / 64 mod 64) = base64url_char (n' / 64 mod 64) →
   base64url_char (n mod 64) = base64url_char (n' mod 64) →
   a = a' ∧ b = b' ∧ c = c')%N.
Proof.
  intros Ha Hb Hc Ha' Hb' Hc' n n' H1 H2 H3 H4.
  apply base64url_char_inj in H1;
    [|apply N.Div0.div_lt_upper_bound; unfold n, n'; lia..].
  apply base64url_char_inj in H2; [|by apply N.mod_upper_bound..].
  apply base64url_char_inj in H3; [|by apply N.mod_upper_bound..].
  apply base64url_char_inj in H4; [|by apply N.mod_upper_bound..].
  pose proof (N_sextets4 _ _ H1 H2 H3 H4). unfold n, n' in *. lia.
Qed.

Lemma N_of_ascii_inj (a b : ascii) : N_of_ascii a = N_of_ascii b → a = b.
Proof.
  intros Heq. rewrite <-(ascii_N_embedding a), <-(ascii_N_embedding b).
  by rewrite Heq.
Qed.

(** The encoding loses nothing. *)
Lemma base64url_inj (x y : string) : base64url x = base64url y → x = y.
Proof.
  revert y.
  induction x as [|a|a b|a b c x IH] using string_ind3;
    intros [|a' [|b' [|c' y]]]; cbn [base64url]; intros Heq;
    try discriminate Heq; try done.
  - injection Heq as H1 H2.
    pose proof (group1_inj _ _ (N_ascii_bounded a) (N_ascii_bounded a') H1 H2) as Ha.
    by apply N_of_ascii_inj in Ha as ->.
  - injection Heq as H1 H2 H3.
    destruct (group2_inj _ _ _ _ (N_ascii_bounded a) (N_ascii_bounded b)
                (N_ascii_bounded a') (N_ascii_bounded b') H1 H2 H3) as [Ha Hb].
    apply N_of_ascii_inj in Ha as ->. by apply N_of_ascii_inj in Hb as ->.
  - injection Heq as H1 H2 H3 H4 Hrest.
    destruct (group3_inj _ _ _ _ _ _ (N_ascii_bounded a) (N_ascii_bounded b)
                (N_ascii_bounded c) (N_ascii_bounded a') (N_ascii_bounded b')
                (N_ascii_bounded c') H1 H2 H3 H4) as (Ha & Hb & Hc).
    apply N_of_ascii_inj in Ha as ->. apply N_of_ascii_inj in Hb as ->.
    apply N_of_ascii_inj in Hc as ->. by rewrite (IH y Hrest).
Qed.

(** The encoding uses the characters of its alphabet only. *)
Lemma base64url_occurs (c : ascii) (x : string) :
  c ∉ base64url_alphabet → occurs c (base64url x) = false.
Proof.
  intros Hc.
  assert (∀ n, bool_decide (base64url_char n = c) = false) as Hn.
  { intros n. apply bool_decide_eq_false. intros <-.
    apply Hc, base64url_char_alphabet. }
  induction x as [|a|a b|a b d x IH] using string_ind3;
    cbn [base64url occurs]; rewrite ?Hn, ?IH; done.
Qed.

(** **** The token *)

Lemma jwt_sign_form (hmac : string → string → string) (payload : Z)
    (secret : string) :
  ∃ signature,
    jwt_sign hmac payload secret
    = "eyJhbGciOiJIUzI1NiJ9."
      +:+ (base64url (pretty payload) +:+ String "."%char (base64url signature)).
Proof.
  eexists. unfold jwt_sign. cbv zeta.
  change (base64url jws_header) with "eyJhbGciOiJIUzI1NiJ9".
  rewrite !string_app_assoc. reflexivity.
Qed.

(** The token carries its payload: tokens of different payloads differ,
    whatever the digests and the secrets. *)
Lemma jwt_sign_inj (hmac hmac' : string → string → string) (a b : Z)
    (k k' : string) :
  jwt_sign hmac a k = jwt_sign hmac' b k' → a = b.
Proof.
  destruct (jwt_sign_form hmac a k) as [sa ->].
  destruct (jwt_sign_form hmac' b k') as [sb ->].
  intros Heq. apply (inj (String.append _)) in Heq.
  apply sep_inj in Heq as [Heq _];
    [|apply base64url_occurs; by apply (bool_decide_unpack _)..].
  by apply base64url_inj, (inj pretty) in Heq.
Qed.

Lemma jwt_sign_no_slash (hmac : string → string → string) (a : Z) (k : string) :
  occurs "/" (jwt_sign hmac a k) = false.
Proof.
  destruct (jwt_sign_form hmac a k) as [sa ->].
  rewrite occurs_app, occurs_app. cbn [occurs].
  rewrite !base64url_occurs by (by apply (bool_decide_unpack _)).
  reflexivity.
Qed.

(** **** Joining a directory and a file name *)

Lemma split_slash_nonempty (s : string) : split_slash s ≠ [].
Proof.
  destruct s as [|c s]; [done|]. simpl.
  case_bool_decide; [done|]. by destruct (split_slash s).
Qed.

Lemma split_slash_app (a b : string) :
  split_slash (a +:+ String "/" b) = split_slash a ++ split_slash b.
Proof.
  induction a as [|c a IH].
  - change (split_slash (String "/" b) = split_slash "" ++ split_slash b).
    cbn [split_slash]. by rewrite bool_decide_true.
  - rewrite string_app_cons. cbn [split_slash].
    rewrite IH. case_bool_decide; [done|].
    pose proof (split_slash_nonempty a). by destruct (split_slash a).
Qed.

Lemma split_slash_file (f : string) : occurs "/" f = false → split_slash f = [f].
Proof.
  induction f as [|c f IH]; simpl; [done|]. intros Hf.
  apply orb_false_elim in Hf as [Hc Hf]. rewrite Hc, IH; done.
Qed.

Lemma starts_with_slash_file (f : string) :
  occurs "/" f = false → starts_with_slash f = false.
Proof.
  destruct f as [|c f]; simpl; [done|]. intros Hf.
  by apply orb_false_elim in Hf as [-> _].
Qed.

Lemma ends_with_slash_file (f : string) :
  occurs "/" f = false → ends_with_slash f = false.
Proof.
  induction f as [|c f IH]; simpl; [done|]. intros Hf.
  apply orb_false_elim in Hf as [Hc Hf]. destruct f; [done|by apply IH].
Qed.

Lemma ends_with_slash_app (a f : string) :
  f ≠ "" → ends_with_slash (a +:+ f) = ends_with_slash f.
Proof.
  intros Hf. induction a as [|c a IH]; [done|].
  rewrite string_app_cons. cbn [ends_with_slash]. rewrite IH.
  destruct (a +:+ f) eqn:Heq; [|done].
  destruct a; [done|]. rewrite string_app_cons in Heq. discriminate Heq.
Qed.

(** The text before the last segment of a joined path. *)
Lemma join_slash_snoc (segs : list string) (f : string) :
  join_slash (segs ++ [f])
  = foldr (λ seg acc, seg +:+ "/" +:+ acc) "" segs +:+ f.
Proof.
  induction segs as [|seg segs IH]; [done|].
  cbn [app join_slash foldr]. rewrite IH, !string_app_assoc.
  destruct (segs ++ [f]) eqn:Heq; [|done].
  by apply app_eq_nil in Heq as [_ ?].
Qed.

Lemma normalize_segment_file (allowAboveRoot : bool) (res : list string)
    (f : string) :
  f ≠ "" → f ≠ "." → f ≠ ".." →
  normalize_segment allowAboveRoot res f = res ++ [f].
Proof.
  intros H0 H1 H2. unfold normalize_segment.
  by rewrite !bool_decide_false by done.
Qed.

(** [path.join] of a directory and a file name, that is, a name without a
    slash other than [.] and [..], puts a text that depends on the
    directory only in front of the name. *)
Lemma path_join_file (dir : string) :
  ∃ prefix, ∀ f,
    occurs "/" f = false → f ≠ "" → f ≠ "." → f ≠ ".." →
    path_join dir f = prefix +:+ f.
Proof.
  destruct (decide (dir = "")) as [->|Hdir].
  - exists "". intros f Hf H0 H1 H2. unfold path_join, path_normalize.
    rewrite bool_decide_true, !bool_decide_false by done.
    rewrite starts_with_slash_file, ends_with_slash_file, split_slash_file by done.
    cbn [foldl negb]. rewrite normalize_segment_file by done.
    cbn [app join_slash]. rewrite bool_decide_false by done.
    by rewrite string_app_nil_r.
  - eexists. intros f Hf H0 H1 H2. unfold path_join, path_normalize.
    rewrite !(bool_decide_false (dir = "")), (bool_decide_false (f = "")) by done.
    rewrite bool_decide_false by (by destruct dir).
    assert (starts_with_slash (dir +:+ "/" +:+ f) = starts_with_slash dir) as ->
      by (by destruct dir).
    rewrite ends_with_slash_app by done.
    change ("/" +:+ f) with (String "/" f).
    assert (ends_with_slash (String "/" f) = false) as ->.
    { cbn [ends_with_slash]. destruct f; [done|]. by apply ends_with_slash_file. }
    rewrite split_slash_app, foldl_app, (split_slash_file f) by done.
    cbn [foldl]. rewrite normalize_segment_file, join_slash_snoc by done.
    rewrite bool_decide_false by (by apply string_app_nonempty).
    rewrite string_app_nil_r, <-string_app_assoc. reflexivity.
Qed.

(** The file names of [check] are file names for [path.join]. *)
Lemma filename_is_file (E : Env) (m : Monitor) (k ext : string) :
  occurs "/" ext = false →
  let f := filename E m k +:+ ext in
  occurs "/" f = false ∧ f ≠ "" ∧ f ≠ "." ∧ f ≠ "..".
Proof.
  intros Hext f. unfold f, filename. split.
  - by rewrite occurs_app, jwt_sign_no_slash.
  - destruct (jwt_sign_form (hmac_sha256 E) (m_id m) k) as [sg ->].
    rewrite string_app_assoc. generalize (base64url (pretty (m_id m))
      +:+ String "."%char (base64url sg)). intros r.
    change ("eyJhbGciOiJIUzI1NiJ9." +:+ ?x)
      with (String "e" (String "y" ("JhbGciOiJIUzI1NiJ9." +:+ x))).
    rewrite !string_app_cons. repeat split; discriminate.
Qed.

(** Each artifact path is a text given by the directory, then the token of
    the monitor id, then the extension. *)
Lemma artifact_path_form (E : Env) :
  ∃ pngDir webmDir, ∀ m k,
    screenshotPath E m k
    = pngDir +:+ jwt_sign (hmac_sha256 E) (m_id m) k +:+ ".png"
    ∧ videoPath E m k
      = webmDir +:+ jwt_sign (hmac_sha256 E) (m_id m) k +:+ ".webm".
Proof.
  destruct (path_join_file (screenshotDir E)) as [png Hpng].
  destruct (path_join_file (videoDir E)) as [webm Hwebm].
  exists png, webm. intros m k. unfold screenshotPath, videoPath.
  split; [apply Hpng|apply Hwebm]; by apply filename_is_file.
Qed.

(** Where [check] writes: the screenshot and the video of a run go to the
    two paths computed from the monitor id and the secret. *)
Lemma check_artifact_paths (E : Env) (monitor : Monitor) (jwtSecret : string) :
  emits_only (λ c, (∀ p, c = Screenshot p → p = screenshotPath E monitor jwtSecret)
                   ∧ (∀ p, c = VideoSaveAs p → p = videoPath E monitor jwtSecret))
    (check E monitor jwtSecret).
Proof.
  unfold check. apply emits_only_bind; [by apply acquire_emits; intros []|].
  intros b. unfold new_URL, saveVideo, set_heartbeat, truthy.
  emits; try done; split; intros p' Hp'; by simplify_eq.
Qed.

(** C9, as the code has it: each artifact path is the directory as
    [path.join] normalizes it, the token [jwt.sign(monitor.id, secret)]
    and the extension.  The token carries the id, so monitors with
    different ids get different screenshot paths and different video
    paths.  Nothing else enters the token: a later run for the same
    monitor id, from any state and with any answers of the environment,
    computes the same two paths as the earlier run, and both runs write
    their screenshot and their video to exactly those. *)
Theorem artifact_paths_by_monitor_id
    (E E' : Env) (m1 m2 : Monitor) (jwtSecret : string) (s s' : State) :
  (∃ pngDir webmDir, ∀ m k,
     screenshotPath E m k
     = pngDir +:+ jwt_sign (hmac_sha256 E) (m_id m) k +:+ ".png"
     ∧ videoPath E m k
       = webmDir +:+ jwt_sign (hmac_sha256 E) (m_id m) k +:+ ".webm")
  ∧ (m_id m1 ≠ m_id m2 →
     screenshotPath E m1 jwtSecret ≠ screenshotPath E m2 jwtSecret
     ∧ videoPath E m1 jwtSecret ≠ videoPath E m2 jwtSecret)
  ∧ (m_id m2 = m_id m1 → hmac_sha256 E' = hmac_sha256 E →
     screenshotDir E' = screenshotDir E → videoDir E' = videoDir E →
     let writes_first c :=
       (∀ p, c = Screenshot p → p = screenshotPath E m1 jwtSecret)
       ∧ (∀ p, c = VideoSaveAs p → p = videoPath E m1 jwtSecret) in
     screenshotPath E' m2 jwtSecret = screenshotPath E m1 jwtSecret
     ∧ videoPath E' m2 jwtSecret = videoPath E m1 jwtSecret
     ∧ (∃ l, trace (check E m1 jwtSecret s).2 = trace s ++ l
             ∧ Forall writes_first l)
     ∧ (∃ l', trace (check E' m2 jwtSecret s').2 = trace s' ++ l'
              ∧ Forall writes_first l')).
Proof.
  split; [apply artifact_path_form|]. split.
  - intros Hne.
    destruct (artifact_path_form E) as (png & webm & Hform).
    destruct (Hform m1 jwtSecret) as [-> ->].
    destruct (Hform m2 jwtSecret) as [-> ->].
    split; intros Heq; apply Hne;
      apply (inj (String.append _)), string_app_inj_r in Heq;
      by apply jwt_sign_inj in Heq.
  - intros Hid Hh Hpng Hwebm writes_first.
    assert (screenshotPath E' m2 jwtSecret = screenshotPath E m1 jwtSecret) as Hs
      by (unfold screenshotPath, filename; by rewrite Hid, Hh, Hpng).
    assert (videoPath E' m2 jwtSecret = videoPath E m1 jwtSecret) as Hv
      by (unfold videoPath, filename; by rewrite Hid, Hh, Hwebm).
    split; [done|]. split; [done|]. split.
    + apply check_artifact_paths.
    + unfold writes_first. rewrite <-Hs, <-Hv. apply check_artifact_paths.
Qed.

(** The theorem at monitors 7 and 8 on [host], and at two runs for
    monitor 7 of which the second finds the target answering 503. *)
Lemma artifact_paths_by_monitor_id_witness :
  let down : string → Result Response :=
    λ _, Ok {| status := 503; responseEnd := 12 |} in
  screenshotPath (host loads) (page 7 "https://a.test/" None) "secret"
  ≠ screenshotPath (host loads) (page 8 "https://b.test/" None) "secret"
  ∧ screenshotPath (host down) (page 7 "https://a.test/" None) "secret"
    = screenshotPath (host loads) (page 7 "https://a.test/" None) "secret".
Proof.
  intros down. split.
  - destruct (artifact_paths_by_monitor_id (host loads) (host loads)
                (page 7 "https://a.test/" None) (page 8 "https://b.test/" None)
                "secret" fresh fresh) as (_ & H & _).
    apply H. simpl. lia.
  - destruct (artifact_paths_by_monitor_id (host loads) (host down)
                (page 7 "https://a.test/" None) (page 7 "https://a.test/" None)
                "secret" fresh fresh) as (_ & _ & H).
    destruct H as (H & _); reflexivity || exact H.
Defined.

(** C9 as stated fails in its second half: two runs of the check of
    monitor 7 write the screenshot to the same path and the video to the
    same path, so the second run collides with the first.  With the data
    directory [./data/] and the secret ["secret"] the token is the one
    the library computes. *)
Lemma rerun_writes_same_artifact_paths :
  let monitor := page 7 "https://a.test/" None in
  let r1 := check (host loads) monitor "secret" fresh in
  let r2 := check (host loads) monitor "secret" r1.2 in
  let token := "eyJhbGciOiJIUzI1NiJ9.Nw.z46fBYrqFMGpzz1bqSwBdNBqhxgVCsP7mEfvm71CJ4E" in
  let png := "data/screenshots/" +:+ token +:+ ".png" in
  let webm := "data/video/" +:+ token +:+ ".webm" in
  jwt_sign hmac_examples 7 "secret" = token
  ∧ filter (λ c, writes_artifact c = true) (trace r1.2)
    = [Screenshot png; VideoSaveAs webm]
  ∧ filter (λ c, writes_artifact c = true)
      (drop (length (trace r1.2)) (trace r2.2))
    = [Screenshot png; VideoSaveAs webm].
Proof. repeat split; vm_compute; reflexivity. Qed.

End BrowserFacts.

(** ** Stopping a monitor *)

Section StopMonitor.
Import QueueManager.

Lemma filter_ext_elem {A} (P Q : A → Prop) `{∀ x, Decision (P x)}
    `{∀ x, Decision (Q x)} (l : list A) :
  (∀ x, x ∈ l → P x ↔ Q x) → filter P l = filter Q l.
Proof.
  induction l as [|a l IH]; intros Hext; [done|].
  rewrite !filter_cons.
  rewrite IH by (intros x Hx; apply Hext; by right).
  destruct (decide (P a)) as [HP|HP], (decide (Q a)) as [HQ|HQ]; try done;
    exfalso; apply (Hext a ltac:(by left)) in HP || apply (Hext a ltac:(by left)) in HQ;
    done.
Qed.

Lemma NoDup_fmap_elem_inj {A B} (f : A → B) (l : list A) (x y : A) :
  NoDup (f <$> l) → x ∈ l → y ∈ l → f x = f y → x = y.
Proof.
  induction l as [|a l IH]; intros Hnd Hx Hy Heq; [by apply elem_of_nil in Hx|].
  rewrite fmap_cons in Hnd. apply NoDup_cons in Hnd as [Ha Hnd].
  apply elem_of_cons in Hx as [->|Hx]; apply elem_of_cons in Hy as [->|Hy].
  - done.
  - exfalso. apply Ha. rewrite Heq. by apply list_elem_of_fmap_2.
  - exfalso. apply Ha. rewrite <-Heq. by apply list_elem_of_fmap_2.
  - by apply IH.
Qed.

(** The loop of [stopMonitor]: the jobs whose id is one of the removed ids
    are gone, the others stay in order; one [job.remove()] per listed job. *)
Lemma remove_loop (js : list Job) (w : World) :
  let w' := foldl (λ w j, set_broker (Job_remove (job_id j) (broker w))
                            (call (CallJobRemove (job_id j)) w)) w js in
  q_jobs (broker w') = filter (λ j, job_id j ∉ job_id <$> js) (q_jobs (broker w))
  ∧ q_counter (broker w') = q_counter (broker w)
  ∧ calls w' = calls w ++ ((λ j, CallJobRemove (job_id j)) <$> js)
  ∧ clock w' = clock w ∧ db w' = db w ∧ monitorList w' = monitorList w.
Proof.
  revert w. induction js as [|a js IH]; intros w; cbn [foldl].
  - cbn zeta. rewrite app_nil_r. repeat split; try done.
    induction (q_jobs (broker w)) as [|j l IHl]; [done|].
    rewrite filter_cons_True by apply not_elem_of_nil. by f_equal.
  - destruct (IH (set_broker (Job_remove (job_id a) (broker w))
                    (call (CallJobRemove (job_id a)) w)))
      as (Hj & Hc & Hcalls & Hclock & Hdb & Hml).
    cbn zeta. rewrite Hj, Hc, Hcalls, Hclock, Hdb, Hml. simpl.
    rewrite <-app_assoc. repeat split; try done.
    rewrite list_filter_filter. apply filter_ext_elem.
    intros j _. rewrite elem_of_cons. tauto.
Qed.

Lemma stopMonitor_jobs (monitorId : Z) (w : World) :
  q_jobs (broker (stopMonitor monitorId w))
  = filter (λ j, job_id j ∉ job_id <$>
                   filter (λ j, job_monitorId j = monitorId)
                          (Queue_getJobs_pending (broker w)))
           (q_jobs (broker w)).
Proof. unfold stopMonitor. apply remove_loop. Qed.

(** X1: in a queue whose job ids are pairwise different, [stopMonitor(id)]
    leaves exactly the jobs that are not waiting-or-delayed jobs of [id], in
    their order: every pending job of the monitor is removed, a job of the
    monitor that a worker is running stays, and so do completed and failed
    ones and all jobs of other monitors.  It issues one [job.remove()] per
    removed job and touches neither the store nor the clock. *)
Theorem stopMonitor_removes_pending_only (monitorId : Z) (w : World) :
  NoDup (job_id <$> q_jobs (broker w)) →
  let w' := stopMonitor monitorId w in
  q_jobs (broker w')
  = filter (λ j, ¬ (job_monitorId j = monitorId ∧ pending j)) (q_jobs (broker w))
  ∧ calls w'
    = calls w ++ ((λ j, CallJobRemove (job_id j)) <$>
                  filter (λ j, job_monitorId j = monitorId ∧ pending j)
                         (q_jobs (broker w)))
  ∧ db w' = db w ∧ clock w' = clock w.
Proof.
  intros Hnd w'.
  assert (filter (λ j, job_monitorId j = monitorId) (Queue_getJobs_pending (broker w))
          = filter (λ j, job_monitorId j = monitorId ∧ pending j) (q_jobs (broker w)))
    as Hsel.
  { unfold Queue_getJobs_pending. rewrite list_filter_filter.
    apply filter_ext_elem. intros j _. unfold pending. tauto. }
  unfold w', stopMonitor.
  match goal with |- context [foldl ?f w ?js] =>
    destruct (remove_loop js w) as (Hj & _ & Hc & Hclock & Hdb & _)
  end.
  cbn zeta in Hj, Hc, Hclock, Hdb. rewrite Hj, Hc, Hclock, Hdb, Hsel.
  repeat split; try done.
  apply filter_ext_elem. intros j Hin. split.
  - intros Hnot Hsel'. apply Hnot. apply list_elem_of_fmap_2.
    by apply list_elem_of_filter.
  - intros Hnot Hid. apply Hnot.
    apply list_elem_of_fmap in Hid as (j' & Hid & Hj').
    apply list_elem_of_filter in Hj' as [Hsel' Hin'].
    by rewrite (NoDup_fmap_elem_inj job_id _ j j' Hnd Hin Hin' Hid).
Qed.

(** The theorem at a queue with a running, a waiting and a delayed job of
    monitor 7. *)
Lemma stopMonitor_removes_pending_only_witness :
  let job i st := {| job_id := AutoId i; job_name := "monitor-7";
                     job_monitorId := 7; job_delay := 0; job_timestamp := 0;
                     job_runAt := 0; job_attemptsMade := 0; job_state := st |} in
  let w := {| clock := 0; db := [];
              broker := {| q_jobs := [job 1%N active; job 2%N waiting; job 3%N delayed];
                           q_counter := 3 |};
              monitorList := ∅; calls := [] |} in
  q_jobs (broker (stopMonitor 7 w)) = [job 1%N active].
Proof.
  intros job w.
  destruct (stopMonitor_removes_pending_only 7 w) as (H & _).
  - apply (bool_decide_unpack _). vm_compute. exact I.
  - rewrite H. reflexivity.
Defined.

(** X2: [stopMonitor(id)] of the facade is idempotent in both modes: a
    second call right after the first finds nothing to remove or stop and
    leaves the world, including the calls made, unchanged. *)
Theorem stopMonitor_twice (monitorId : Z) (f : QueueIntegration.Facade) (w : World) :
  QueueIntegration.stopMonitor monitorId f
    (QueueIntegration.stopMonitor monitorId f w)
  = QueueIntegration.stopMonitor monitorId f w.
Proof.
  unfold QueueIntegration.stopMonitor.
  destruct (QueueIntegration.queue_path f) as [m|].
  - set (w' := stopMonitor monitorId w).
    assert (filter (λ j, job_monitorId j = monitorId)
              (Queue_getJobs_pending (broker w')) = []) as Hnone.
    { destruct (filter _ _) as [|j t] eqn:Hf; [done|]. exfalso.
      assert (j ∈ j :: t) as Hj by left. rewrite <-Hf in Hj.
      apply list_elem_of_filter in Hj as [Hid Hj].
      apply list_elem_of_filter in Hj as [Hpend Hj].
      unfold w' in Hj. rewrite stopMonitor_jobs in Hj.
      apply list_elem_of_filter in Hj as [Hnot Hj]. apply Hnot.
      apply list_elem_of_fmap_2. apply list_elem_of_filter. split; [done|].
      by apply list_elem_of_filter. }
    unfold stopMonitor at 1. by rewrite Hnone.
  - destruct (monitorList w !! monitorId) as [m|] eqn:Hm; [|by rewrite Hm].
    simpl. by rewrite lookup_delete_eq.
Qed.

End StopMonitor.

(** ** Jobs of paused monitors, and stops during a run *)

Section WorkerEdges.
Import QueueManager.

Lemma stopMonitor_no_pending (monitorId : Z) (w : World) (j : Job) :
  j ∈ q_jobs (broker (stopMonitor monitorId w)) →
  job_monitorId j = monitorId → ¬ pending j.
Proof.
  rewrite stopMonitor_jobs. intros Hj Hid Hpend.
  apply list_elem_of_filter in Hj as [Hnot Hj]. apply Hnot.
  apply list_elem_of_fmap_2. apply list_elem_of_filter. split; [done|].
  by apply list_elem_of_filter.
Qed.

Lemma R_findOne_active_None (db : Store) (monitorId : Z) :
  (∀ m, m ∈ db → m_id m = monitorId → m_active m = false) →
  R_findOne_active db monitorId = None.
Proof.
  intros Hall. unfold R_findOne_active.
  destruct (List.find _ db) as [m|] eqn:Hfind; [|done].
  apply find_some in Hfind as [Hin Hb]. apply andb_prop in Hb as [Hid Hact].
  apply bool_decide_eq_true in Hid. rewrite <-list_elem_of_In in Hin.
  by rewrite (Hall m Hin Hid) in Hact.
Qed.

(** X3: a job whose monitor is no longer active in the store (deleted or
    paused since the job was queued) is run without a check: the processor
    returns the skipped status and calls nothing, the worker completes the
    job, and no successor is queued, so the monitor that had this one
    outstanding job has none afterwards. *)
Theorem paused_monitor_job_ends_its_chain
    (jid : JobId) (beat : BeatOutcome) (w w1 : World) (job : Job) :
  Worker_take jid w = Some (job, w1) →
  (∀ m, m ∈ db w → m_id m = job_monitorId job → m_active m = false) →
  (length (jobsOf (job_monitorId job) (broker w)) ≤ 1)%nat →
  let w' := Worker_run jid beat w in
  processMonitorJob job beat w1 = (Skipped, w1)
  ∧ calls w' = calls w
  ∧ jobsOf (job_monitorId job) (broker w') = []
  ∧ length (q_jobs (broker w')) = length (q_jobs (broker w)).
Proof.
  intros Htake Hoff Hone w'.
  pose proof Htake as Htake'.
  apply Worker_take_spec in Htake' as (j0 & Hin & Hid & Hst & -> & ->).
  assert (processMonitorJob (with_state active j0) beat
            (set_broker (update_job jid (job_state j0) (with_state active) (broker w)) w)
          = (Skipped, set_broker (update_job jid (job_state j0) (with_state active)
                                    (broker w)) w)) as Hproc.
  { unfold processMonitorJob. by rewrite R_findOne_active_None. }
  split; [done|].
  unfold w', Worker_run. rewrite Htake, Hproc. unfold Worker_settle.
  cbn [calls broker set_broker]. split; [done|]. split.
  - unfold jobsOf, update_job at 1. cbn [q_jobs].
    apply (settle_done_clears _ jid _ (with_state active j0)); try done.
    + etrans; [|exact Hone].
      apply (jobsOf_update_le jid (job_state j0) (with_state active)
               (job_monitorId j0) (broker w)).
      intros j Hj. split; [done|]. intros _. unfold outstanding.
      rewrite Hj. tauto.
    + unfold update_job. cbn [q_jobs]. apply list_elem_of_fmap. exists j0.
      split; [|done]. by rewrite decide_True.
    + intros j. unfold outstanding. simpl. intros [?|[?|?]]; done.
  - unfold update_job. cbn [q_jobs]. by rewrite !length_fmap.
Qed.

(** The theorem at a queue holding the one job of monitor 7, which has been
    paused. *)
Lemma paused_monitor_job_ends_its_chain_witness :
  let paused := {| m_id := 7; m_name := "web"; m_interval := 60;
                   m_active := false; m_url := "https://a.test/";
                   m_remote_browser := None; m_user_id := 1 |} in
  let job := new_job (AutoId 1) "monitor-7" 7 {| o_delay := 0; o_jobId := None |} 0 in
  let w := {| clock := 0; db := [paused];
              broker := {| q_jobs := [job]; q_counter := 1 |};
              monitorList := ∅; calls := [] |} in
  jobsOf 7 (broker (Worker_run (AutoId 1) (BeatReturns 10) w)) = [].
Proof.
  intros paused job w.
  destruct (paused_monitor_job_ends_its_chain (AutoId 1) (BeatReturns 10) w
              (set_broker {| q_jobs := [with_state active job]; q_counter := 1 |} w)
              (with_state active job)) as (_ & _ & H & _).
  - reflexivity.
  - intros m Hm _. apply list_elem_of_singleton in Hm. by subst.
  - simpl. lia.
  - exact H.
Defined.

(** X4: stopping a monitor while a worker runs its job removes the pending
    jobs of the monitor but does not end the schedule: when the running
    check returns and the monitor is still active in the store, the
    processor queues the successor as usual, so after the run the monitor
    again has a pending job. *)
Theorem stop_during_run_is_undone
    (jid : JobId) (w w1 : World) (job : Job) (monitor : Monitor) (ms : Z) :
  Worker_take jid w = Some (job, w1) →
  R_findOne_active (db w) (job_monitorId job) = Some monitor →
  let w2 := stopMonitor (m_id monitor) w1 in
  let r := processMonitorJob job (BeatReturns ms) w2 in
  let w3 := Worker_settle jid r.1 r.2 in
  has_job (CustomId (uniqueJobId (m_id monitor) (clock w + ms))) (broker w2) = false →
  Forall (λ j, job_state j = active) (jobsOf (m_id monitor) (broker w2))
  ∧ r.1 = Done (m_id monitor)
  ∧ ∃ next, next ∈ jobsOf (m_id monitor) (broker w3)
          ∧ pending next
          ∧ job_id next = CustomId (uniqueJobId (m_id monitor) (clock w + ms))
          ∧ job_timestamp next = clock w + ms.
Proof.
  intros Htake Hfind w2 r w3 Hfresh.
  pose proof (R_findOne_active_spec _ _ _ Hfind) as (_ & Hmid & _).
  apply Worker_take_spec in Htake as (j0 & Hin & Hid & Hst & -> & ->).
  assert (db w2 = db w) as Hdb by (unfold w2; by rewrite stopMonitor_db).
  assert (clock w2 = clock w) as Hclock.
  { unfold w2, stopMonitor.
    match goal with |- context [foldl ?f ?w0 ?js] =>
      destruct (remove_loop js w0) as (_ & _ & _ & Hc & _) end.
    exact Hc. }
  split.
  { apply Forall_forall. intros j Hj.
    apply list_elem_of_filter in Hj as [[Hjid Hout] Hj].
    pose proof (stopMonitor_no_pending _ _ _ Hj Hjid) as Hnp.
    unfold pending in Hnp. unfold outstanding in Hout. tauto. }
  assert (r = (Done (m_id monitor),
               scheduleNextCheck monitor
                 (elapse ms (call (CallPerformCheck (m_id monitor)) w2)))) as Hr.
  { cbn [job_monitorId with_state] in Hfind, Hmid.
    unfold r, processMonitorJob. cbn [job_monitorId with_state].
    rewrite Hdb, Hfind. simpl. by rewrite Hmid. }
  split; [by rewrite Hr|].
  set (next := new_job (CustomId (uniqueJobId (m_id monitor) (clock w + ms)))
                 (jobName (m_id monitor)) (m_id monitor)
                 {| o_delay := inject_Z (or_default (m_interval monitor) 60 * 1000);
                    o_jobId := Some (uniqueJobId (m_id monitor) (clock w + ms)) |}
                 (clock w + ms)).
  assert (pending next) as Hpend.
  { unfold pending, next, new_job. simpl. destruct (Qle_bool _ _); auto. }
  exists next. repeat split; try done.
  unfold w3. rewrite Hr. unfold Worker_settle, scheduleNextCheck, jobsOf.
  cbn [fst snd broker set_broker call elapse set_clock clock update_job q_jobs].
  rewrite Hclock.
  erewrite Queue_add_fresh; [|reflexivity|exact Hfresh].
  rewrite fmap_app, filter_app, list_fmap_singleton. apply elem_of_app. right.
  fold next. rewrite decide_False.
  2:{ intros [_ Hact]. unfold pending in Hpend. rewrite Hact in Hpend.
      by destruct Hpend. }
  apply list_elem_of_filter. split; [|by left].
  split; [done|]. unfold outstanding. unfold pending in Hpend. tauto.
Qed.

(** The theorem at monitor 7, stopped while its job runs. *)
Lemma stop_during_run_is_undone_witness :
  let monitor := {| m_id := 7; m_name := "web"; m_interval := 60;
                    m_active := true; m_url := "https://a.test/";
                    m_remote_browser := None; m_user_id := 1 |} in
  let job := new_job (AutoId 1) "monitor-7" 7 {| o_delay := 0; o_jobId := None |} 0 in
  let w := {| clock := 0; db := [monitor];
              broker := {| q_jobs := [job]; q_counter := 1 |};
              monitorList := ∅; calls := [] |} in
  let w1 := set_broker {| q_jobs := [with_state active job]; q_counter := 1 |} w in
  let r := processMonitorJob (with_state active job) (BeatReturns 10)
             (stopMonitor 7 w1) in
  r.1 = Done 7.
Proof.
  intros monitor job w w1 r.
  destruct (stop_during_run_is_undone (AutoId 1) w w1 (with_state active job)
              monitor 10) as (_ & H & _); [reflexivity..|exact H].
Defined.

End WorkerEdges.

(** ** Live jobs per monitor *)

Section LiveJobs.
Import QueueManager Interleaving.

Variable f : QueueIntegration.Facade.


































Lemma resume_only_run (jid : JobId) (beat : BeatOutcome) (w : World) (r : Run) :
  job_id (run_job r) = jid →
  happen f {| world := w; runs := [r] |} (EvResume jid beat)
  = match resume beat r w with
    | (Some st, w') => {| world := w'; runs := [with_stage st r] |}
    | (None, w') => {| world := w'; runs := [] |}
    end.
Proof.
  intros Hid.
  assert (running jid r = true) as Hrun by (by apply bool_decide_eq_true).
  cbn [happen world runs List.find]. rewrite Hrun.
  destruct (resume beat r w) as [[st|] w']; cbn [fmap list_fmap].
  - by rewrite Hrun.
  - rewrite filter_cons_False by (by rewrite Hrun). done.
Qed.

(** A run that nothing interrupts is [Worker_run]: the worker takes the
    job, the processor passes its awaits, the worker settles the job. *)
Lemma Worker_run_in_steps (jid : JobId) (beat : BeatOutcome) (w : World) :
  foldl (happen f) {| world := w; runs := [] |}
    [EvTake jid; EvResume jid beat; EvResume jid beat; EvResume jid beat;
     EvResume jid beat]
  = {| world := Worker_run jid beat w; runs := [] |}.
Proof.
  assert (∀ w', happen f {| world := w'; runs := [] |} (EvResume jid beat)
                = {| world := w'; runs := [] |}) as Hnone by done.
  cbn [foldl]. unfold Worker_run.
  assert (happen f {| world := w; runs := [] |} (EvTake jid)
          = match Worker_take jid w with
            | Some (job, w1) =>
                {| world := w1;
                   runs := [{| run_job := job; run_stage := AwaitFindOne |}] |}
            | None => {| world := w; runs := [] |}
            end) as -> by done.
  destruct (Worker_take jid w) as [[job w1]|] eqn:Htake; [|by rewrite !Hnone].
  apply Worker_take_spec in Htake as (j0 & _ & Hid & _ & Hjob & _).
  assert (job_id job = jid) as Hjid by (by rewrite Hjob).
  unfold processMonitorJob.
  rewrite resume_only_run by done. unfold resume at 1. cbn [run_stage run_job].
  destruct (R_findOne_active (db w1) (job_monitorId job)) as [m|].
  2:{ rewrite resume_only_run by done. unfold resume at 1.
      cbn [run_stage run_job with_stage]. by rewrite !Hnone, Hjid. }
  rewrite resume_only_run by done. unfold resume at 1.
  cbn [run_stage run_job with_stage].
  destruct (executeMonitorBeat m beat w1) as [[e|] w2] eqn:Hbeat.
  - rewrite resume_only_run by done. unfold resume at 1.
    cbn [run_stage run_job with_stage]. by rewrite !Hnone, Hjid.
  - rewrite resume_only_run by done. unfold resume at 1.
    cbn [run_stage run_job with_stage].
    rewrite resume_only_run by done. unfold resume at 1.
    cbn [run_stage run_job with_stage]. rewrite Hjid.
    unfold executeMonitorBeat in Hbeat.
    destruct beat as [ms|ms e]; [|done]. by injection Hbeat as <-.
Qed.

End LiveJobs.

Section LiveJobsExamples.
Import QueueManager Interleaving.









End LiveJobsExamples.

(** ** Building the queue manager *)

Section Construction.
Import QueueIntegration.

Lemma constructions_app (l l' : list Call) :
  constructions (l ++ l') = (constructions l + constructions l')%nat.
Proof. unfold constructions. by rewrite filter_app, length_app. Qed.

Lemma constructions_call (c : Call) (w : World) :
  is_construction c = false →
  constructions (calls (call c w)) = constructions (calls w).
Proof.
  intros Hc. simpl. rewrite constructions_app. unfold constructions at 2.
  rewrite filter_cons_False by (by rewrite Hc). simpl. lia.
Qed.

Lemma constructions_foldl {A} (step : World → A → World) (l : list A) (w : World) :
  (∀ w a, constructions (calls (step w a)) = constructions (calls w)) →
  constructions (calls (foldl step w l)) = constructions (calls w).
Proof.
  intros Hstep. revert w. induction l as [|a l IH]; intros w; [done|].
  simpl. by rewrite IH, Hstep.
Qed.

Lemma constructions_startMonitorsTraditional (o : Oracle) (w : World) :
  constructions (calls (startMonitorsTraditional o w)) = constructions (calls w).
Proof.
  unfold startMonitorsTraditional.
  rewrite constructions_foldl; [by rewrite constructions_foldl|].
  intros w' [k m]. simpl. rewrite !constructions_app.
  unfold constructions. simpl. lia.
Qed.

Lemma constructions_queue_startAll (random : nat → Q) (w : World) :
  constructions (calls (QueueManager.startAllMonitors random w))
  = constructions (calls w).
Proof.
  unfold QueueManager.startAllMonitors. simpl. rewrite !constructions_app.
  unfold constructions. simpl. lia.
Qed.

Lemma constructions_queue_stop (monitorId : Z) (w : World) :
  constructions (calls (QueueManager.stopMonitor monitorId w))
  = constructions (calls w).
Proof.
  unfold QueueManager.stopMonitor. apply constructions_foldl.
  intros w' j. simpl. rewrite constructions_app. unfold constructions. simpl. lia.
Qed.

Lemma initialize_constructions (o : Oracle) (f : Facade) (w : World) :
  (constructions (calls (initialize o f w).2) + may_construct (initialize o f w).1
   = constructions (calls w) + may_construct f)%nat.
Proof.
  unfold initialize, may_construct.
  destruct (isQueueMode f) eqn:Hm; simpl; [|by rewrite Hm].
  destruct (isInitialized f) eqn:Hi; simpl; [by rewrite Hm, Hi|].
  destruct (ctor_throws o); simpl; rewrite ?Hm, constructions_app;
    unfold constructions; simpl; lia.
Qed.

Lemma step_constructions (op : Op) (o : Oracle) (f : Facade) (w : World) :
  (constructions (calls (step op o (f, w)).2) + may_construct (step op o (f, w)).1
   = constructions (calls w) + may_construct f)%nat.
Proof.
  destruct op; cbn [step fst snd].
  - apply initialize_constructions.
  - unfold startAllMonitors.
    pose proof (initialize_constructions o f w) as Hinit.
    destruct (initialize o f w) as [f' w']. cbn [fst snd] in Hinit.
    destruct (queue_path f'); cbn [fst snd];
      by rewrite ?constructions_queue_startAll, ?constructions_startMonitorsTraditional.
  - f_equal. unfold startMonitor. destruct (queue_path f).
    + simpl. rewrite constructions_app. unfold constructions. simpl. lia.
    + destruct (R_findOne _ _); [by apply constructions_call|done].
  - f_equal. unfold stopMonitor. destruct (queue_path f).
    + apply constructions_queue_stop.
    + destruct (monitorList w !! _); [|done]. simpl.
      rewrite constructions_app. unfold constructions. simpl. lia.
  - f_equal. unfold getStats. destruct (queue_path f); [|done].
    destruct (stats_throws o); simpl; rewrite constructions_app;
      unfold constructions; simpl; lia.
  - f_equal. unfold healthCheck. destruct (isQueueMode f); [|done]. simpl.
    unfold getStats. destruct (queue_path f); [|done].
    destruct (stats_throws o); simpl; rewrite constructions_app;
      unfold constructions; simpl; lia.
  - f_equal. unfold shutdown. destruct (queueManager f); [|done].
    by apply constructions_call.
Qed.

Lemma step_may_construct (op : Op) (o : Oracle) (f : Facade) (w : World) :
  (may_construct (step op o (f, w)).1 ≤ may_construct f)%nat.
Proof.
  assert ((may_construct (initialize o f w).1 ≤ may_construct f)%nat) as Hinit.
  { unfold initialize, may_construct.
    destruct (isQueueMode f) eqn:Hm; simpl; [|by rewrite Hm].
    destruct (isInitialized f) eqn:Hi; simpl; [by rewrite Hm, Hi|].
    destruct (ctor_throws o); simpl; rewrite ?Hm; simpl; lia. }
  destruct op; cbn [step fst snd]; try done.
  unfold startAllMonitors. destruct (initialize o f w) as [f' w'].
  cbn [fst] in Hinit. by destruct (queue_path f').
Qed.

Lemma run_may_construct (ops : list (Op * Oracle)) (f : Facade) (w : World) :
  (may_construct (run ops (f, w)).1 ≤ may_construct f)%nat.
Proof.
  unfold run. revert f w.
  induction ops as [|[op o] ops IH]; intros f w; cbn [foldl fst snd]; [done|].
  pose proof (step_may_construct op o f w) as Hstep.
  destruct (step op o (f, w)) as [f' w']. cbn [fst] in Hstep.
  etrans; [apply IH|done].
Qed.

Lemma run_constructions (ops : list (Op * Oracle)) (f : Facade) (w : World) :
  (constructions (calls (run ops (f, w)).2) + may_construct (run ops (f, w)).1
   = constructions (calls w) + may_construct f)%nat.
Proof.
  unfold run. revert f w.
  induction ops as [|[op o] ops IH]; intros f w; cbn [foldl fst snd]; [done|].
  pose proof (step_constructions op o f w) as Hstep.
  destruct (step op o (f, w)) as [f' w']. cbn [fst snd] in Hstep.
  rewrite IH. exact Hstep.
Qed.

(** X5: over any sequence of facade methods, with any answers of the
    environment, [new QueueManager()] is evaluated at most once, whether it
    succeeds or throws; it is not evaluated at all when queue mode is off
    or the facade is initialized; and once it has been evaluated the facade
    is either initialized or out of queue mode. *)
Theorem queue_manager_built_at_most_once
    (ops : list (Op * Oracle)) (f : Facade) (w : World) :
  let fw' := run ops (f, w) in
  (constructions (calls fw'.2) ≤ constructions (calls w) + 1)%nat
  ∧ (isQueueMode f = false ∨ isInitialized f = true →
     constructions (calls fw'.2) = constructions (calls w))
  ∧ (constructions (calls fw'.2) = S (constructions (calls w)) →
     isQueueMode fw'.1 = false ∨ isInitialized fw'.1 = true).
Proof.
  intros fw'. pose proof (run_constructions ops f w) as H.
  pose proof (run_may_construct ops f w) as Hle. fold fw' in H, Hle.
  unfold may_construct in H, Hle.
  repeat split.
  - destruct (isQueueMode f && negb (isInitialized f));
      destruct (isQueueMode fw'.1 && negb (isInitialized fw'.1)); lia.
  - intros Hsettled.
    assert (isQueueMode f && negb (isInitialized f) = false) as Hf.
    { destruct Hsettled as [-> | ->]; [done|]. by destruct (isQueueMode f). }
    rewrite Hf in H, Hle.
    destruct (isQueueMode fw'.1 && negb (isInitialized fw'.1)); lia.
  - intros Hone. rewrite Hone in H.
    destruct (isQueueMode fw'.1) eqn:Hm'; [|by left].
    destruct (isInitialized fw'.1) eqn:Hi'; [by right|].
    simpl in H. destruct (isQueueMode f && negb (isInitialized f)); lia.
Qed.

End Construction.

(** ** The traditional start, and the statistics *)

Section Traditional.
Import QueueIntegration.

(** The first loop of [startMonitorsTraditional]. *)
Lemma register_loop (l : list Monitor) (w : World) :
  let w' := foldl (λ w monitor,
              set_monitorList (<[m_id monitor := monitor]> (monitorList w)) w) w l in
  calls w' = calls w ∧ clock w' = clock w ∧ broker w' = broker w ∧ db w' = db w
  ∧ (∀ i, i ∉ m_id <$> l → monitorList w' !! i = monitorList w !! i)
  ∧ (NoDup (m_id <$> l) → ∀ m, m ∈ l → monitorList w' !! m_id m = Some m)
  ∧ (NoDup (m_id <$> l) → (∀ m, m ∈ l → monitorList w !! m_id m = None) →
     size (monitorList w') = (size (monitorList w) + length l)%nat).
Proof.
  revert w. induction l as [|a l IH]; intros w; cbn [foldl].
  - cbn zeta. repeat split; try done.
    intros _ m Hm. by apply elem_of_nil in Hm.
  - destruct (IH (set_monitorList (<[m_id a := a]> (monitorList w)) w))
      as (Hc & Hcl & Hb & Hdb & Hout & Hin & Hsize).
    cbn zeta. cbn [calls clock broker db monitorList set_monitorList] in *.
    repeat split; try done.
    + intros i Hi. rewrite fmap_cons, not_elem_of_cons in Hi.
      destruct Hi as [Hia Hil]. rewrite Hout by done. by rewrite lookup_insert_ne.
    + intros Hnd m Hm. rewrite fmap_cons in Hnd.
      apply NoDup_cons in Hnd as [Ha Hnd].
      apply elem_of_cons in Hm as [->|Hm]; [|by apply Hin].
      rewrite Hout by done. by rewrite lookup_insert_eq.
    + intros Hnd Hfree. rewrite fmap_cons in Hnd.
      apply NoDup_cons in Hnd as [Ha Hnd].
      rewrite Hsize; [|done|].
      * rewrite map_size_insert_None by (apply Hfree; by left). simpl. lia.
      * intros m Hm. rewrite lookup_insert_ne; [apply Hfree; by right|].
        intros Heq. apply Ha. rewrite Heq. by apply list_elem_of_fmap_2.
Qed.

(** The second loop of [startMonitorsTraditional], from position [n]. *)
Lemma start_loop (o : Oracle) (l : list Monitor) (n : nat) (w : World) :
  let w' := foldl (λ w km,
              let w := call (CallMonitorStart (m_id km.2)) w in
              let ms := randomInt o km.1 in
              elapse ms (call (CallSleep ms) w))
            w (imap (λ k monitor, ((n + k)%nat, monitor)) l) in
  calls w' = calls w ++ mjoin (imap (λ k m, [CallMonitorStart (m_id m);
                                             CallSleep (randomInt o (n + k))]) l)
  ∧ clock w' = clock w + foldr Z.add 0 (imap (λ k _, randomInt o (n + k)) l)
  ∧ broker w' = broker w ∧ db w' = db w ∧ monitorList w' = monitorList w.
Proof.
  revert n w. induction l as [|a l IH]; intros n w.
  - cbn. rewrite app_nil_r. repeat split; try done. lia.
  - rewrite !imap_cons. cbn [foldl fst snd].
    rewrite (imap_ext _ (λ k monitor, ((S n + k)%nat, monitor))).
    2:{ intros k m _. simpl. f_equal. lia. }
    rewrite (imap_ext ((λ k m, [CallMonitorStart (m_id m);
                                CallSleep (randomInt o (n + k))]) ∘ S)
                      (λ k m, [CallMonitorStart (m_id m);
                               CallSleep (randomInt o (S n + k))])).
    2:{ intros k m _. simpl. repeat f_equal. lia. }
    rewrite (imap_ext ((λ k _, randomInt o (n + k)) ∘ S)
                      (λ k _, randomInt o (S n + k))).
    2:{ intros k m _. simpl. f_equal. lia. }
    match goal with |- context [foldl ?f ?w0 (imap _ l)] =>
      destruct (IH (S n) w0) as (Hc & Hcl & Hb & Hdb & Hml)
    end.
    cbn zeta in *. rewrite Hc, Hcl, Hb, Hdb, Hml. rewrite Nat.add_0_r.
    cbn [calls clock broker db monitorList call elapse set_clock].
    cbn [mjoin list_join foldr]. rewrite <-!app_assoc.
    repeat split; try done. lia.
Qed.

(** X6: the traditional bulk start registers every active monitor of the
    store under its id in [server.monitorList] and then, in the order of
    the store, starts each of them exactly once and sleeps the drawn time
    after each start; monitors that are not active are neither registered
    nor started, and the queue is not touched. *)
Theorem startMonitorsTraditional_starts_each_active_once (o : Oracle) (w : World) :
  NoDup (m_id <$> db w) →
  let w' := startMonitorsTraditional o w in
  let act := R_find_active (db w) in
  calls w' = calls w ++ mjoin (imap (λ k m, [CallMonitorStart (m_id m);
                                             CallSleep (randomInt o k)]) act)
  ∧ clock w' = clock w + foldr Z.add 0 (imap (λ k _, randomInt o k) act)
  ∧ broker w' = broker w
  ∧ (∀ m, m ∈ db w → m_active m = true → monitorList w' !! m_id m = Some m)
  ∧ (∀ m, m ∈ db w → m_active m = false →
       monitorList w' !! m_id m = monitorList w !! m_id m
       ∧ CallMonitorStart (m_id m) ∉ drop (length (calls w)) (calls w')).
Proof.
  intros Hnd w' act. pose proof (R_find_active_NoDup _ Hnd) as Hnda.
  unfold w', startMonitorsTraditional. fold act.
  destruct (register_loop act w) as (Hc1 & Hcl1 & Hb1 & Hdb1 & Hout & Hin & _).
  cbn zeta in Hc1, Hcl1, Hb1, Hdb1, Hout, Hin.
  match goal with |- context [foldl ?f (foldl ?g w act) _] =>
    set (w1 := foldl g w act) in *
  end.
  destruct (start_loop o act 0 w1) as (Hc2 & Hcl2 & Hb2 & Hdb2 & Hml2).
  cbn zeta in Hc2, Hcl2, Hb2, Hdb2, Hml2.
  cbn [Nat.add] in Hc2, Hcl2, Hb2, Hdb2, Hml2.
  match type of Hc2 with calls ?x = _ => set (w2 := x) in * end.
  assert (∀ m, m ∈ db w → m_active m = false → m_id m ∉ m_id <$> act) as Hoff.
  { intros m Hm Hact Hin'. apply list_elem_of_fmap in Hin' as (m' & Hid & Hm').
    apply list_elem_of_filter in Hm' as [Hact' Hm'].
    rewrite (NoDup_fmap_elem_inj m_id _ m m' Hnd Hm Hm' Hid) in Hact. congruence. }
  rewrite Hc2, Hcl2, Hb2, Hml2, Hc1, Hcl1, Hb1.
  repeat split; try done.
  - intros m Hm Hact. apply Hin; [done|]. by apply list_elem_of_filter.
  - by apply Hout, Hoff.
  - rewrite drop_app_length. intros Hstart.
    apply list_elem_of_join in Hstart as (l' & Hl' & Hstart).
    apply elem_of_lookup_imap in Hstart as (k & m' & -> & Hm').
    apply elem_of_cons in Hl' as [Heq|Hl'].
    + injection Heq as Heq. apply (Hoff m); [done..|]. rewrite Heq.
      apply list_elem_of_fmap_2. by eapply list_elem_of_lookup_2.
    + apply list_elem_of_singleton in Hl'. done.
Qed.

(** The theorem at a store with an active and a paused monitor. *)
Lemma startMonitorsTraditional_starts_each_active_once_witness :
  let mk i a := {| m_id := i; m_name := "web"; m_interval := 60;
                   m_active := a; m_url := "https://a.test/";
                   m_remote_browser := None; m_user_id := 1 |} in
  let o := {| ctor_throws := false; random := λ _, 0%Q;
              randomInt := λ _, 300; stats_throws := None |} in
  let w := {| clock := 0; db := [mk 1 true; mk 2 false];
              broker := {| q_jobs := []; q_counter := 0 |};
              monitorList := ∅; calls := [] |} in
  calls (startMonitorsTraditional o w) = [CallMonitorStart 1; CallSleep 300].
Proof.
  intros mk o w.
  destruct (startMonitorsTraditional_starts_each_active_once o w) as (H & _).
  - apply (bool_decide_unpack _). vm_compute. exact I.
  - rewrite H. reflexivity.
Defined.

(** X7: in traditional mode, after a bulk start from an empty
    [server.monitorList], [getStats()] reports as [activeMonitors] the
    number of active monitors of the store, and after [stopMonitor] of one
    of them one less. *)
Theorem traditional_stats_count_active (o o' : Oracle) (f : Facade) (w : World) :
  isQueueMode f = false →
  NoDup (m_id <$> db w) →
  monitorList w = ∅ →
  let w1 := (startAllMonitors o f w).2 in
  let n := length (R_find_active (db w)) in
  (∃ st, (getStats o' f w1).1 = inr st
         ∧ mode st = "traditional" ∧ activeMonitors st = Some n)
  ∧ (∀ m, m ∈ db w → m_active m = true →
       ∃ st, (getStats o' f (stopMonitor (m_id m) f w1)).1 = inr st
             ∧ activeMonitors st = Some (n - 1)%nat).
Proof.
  intros Hmode Hnd Hempty w1 n.
  assert (queue_path f = None) as Hpath by (unfold queue_path; by rewrite Hmode).
  assert (w1 = startMonitorsTraditional o w) as Hw1.
  { unfold w1, startAllMonitors, initialize. rewrite Hmode. simpl. by rewrite Hpath. }
  pose proof (R_find_active_NoDup _ Hnd) as Hnda.
  assert (size (monitorList w1) = n
          ∧ ∀ m, m ∈ db w → m_active m = true → monitorList w1 !! m_id m = Some m)
    as [Hsize Hreg].
  { rewrite Hw1. unfold startMonitorsTraditional.
    destruct (register_loop (R_find_active (db w)) w)
      as (_ & _ & _ & _ & _ & Hin & Hsz).
    cbn zeta in Hin, Hsz.
    match goal with |- context [foldl ?f0 (foldl ?g w ?l) _] =>
      set (w0 := foldl g w l) in *
    end.
    destruct (start_loop o (R_find_active (db w)) 0 w0) as (_ & _ & _ & _ & Hml).
    cbn zeta in Hml. cbn [Nat.add] in Hml. rewrite Hml. split.
    - rewrite Hsz; [|done|].
      + rewrite Hempty, map_size_empty. done.
      + intros m _. by rewrite Hempty, lookup_empty.
    - intros m Hm Hact. apply Hin; [done|]. by apply list_elem_of_filter. }
  split.
  - unfold getStats. rewrite Hpath. eexists. split; [done|]. simpl.
    by rewrite Hsize.
  - intros m Hm Hact. unfold getStats, stopMonitor. rewrite Hpath.
    rewrite (Hreg m Hm Hact). eexists. split; [done|]. simpl.
    rewrite map_size_delete_Some by (by rewrite (Hreg m Hm Hact)).
    rewrite Hsize. f_equal. lia.
Qed.

(** The theorem at a store with two active monitors. *)
Lemma traditional_stats_count_active_witness :
  let mk i := {| m_id := i; m_name := "web"; m_interval := 60;
                 m_active := true; m_url := "https://a.test/";
                 m_remote_browser := None; m_user_id := 1 |} in
  let o := {| ctor_throws := false; random := λ _, 0%Q;
              randomInt := λ _, 300; stats_throws := None |} in
  let w := {| clock := 0; db := [mk 1; mk 2];
              broker := {| q_jobs := []; q_counter := 0 |};
              monitorList := ∅; calls := [] |} in
  ∃ st, (getStats o (constructor None) (startAllMonitors o (constructor None) w).2).1
        = inr st ∧ activeMonitors st = Some 2%nat.
Proof.
  intros mk o w.
  destruct (traditional_stats_count_active o o (constructor None) w)
    as ((st & Hst & _ & Hn) & _).
  - reflexivity.
  - apply (bool_decide_unpack _). vm_compute. exact I.
  - reflexivity.
  - exists st. split; [exact Hst|exact Hn].
Defined.

(** X8: [healthCheck()] reports ["disabled"] exactly when [isQueueMode] is
    false and ["unhealthy"] exactly when the facade is on the queue path and
    [getQueueStats()] throws, carrying the error; otherwise it reports
    ["healthy"] with mode ["queue"], also while queue mode is enabled but no
    queue manager exists yet, where the statistics it carries are the
    traditional ones. *)
Theorem healthCheck_status (o : Oracle) (f : Facade) (w : World) :
  let h := (healthCheck o f w).1 in
  (h_status h = "disabled" ↔ isQueueMode f = false)
  ∧ (h_status h = "unhealthy"
     ↔ is_Some (queue_path f) ∧ is_Some (stats_throws o))
  ∧ (h_status h = "unhealthy" → h_error h = stats_throws o ∧ h_stats h = None)
  ∧ (h_status h = "disabled" ∨ h_status h = "unhealthy" ∨ h_status h = "healthy")
  ∧ (h_status h = "healthy" → h_mode h = "queue"
     ∧ ∃ st, h_stats h = Some st
             ∧ (mode st = "traditional" ↔ queueManager f = None))
  ∧ (h_status h ≠ "disabled" → h_mode h = "queue").
Proof.
  unfold healthCheck, getStats, queue_path.
  destruct (isQueueMode f) eqn:Hm; simpl.
  2:{ repeat split; try done; auto; try (intros [[? ?] _]; done). }
  destruct (queueManager f) as [m|] eqn:Hq; simpl.
  - destruct (stats_throws o) as [e|] eqn:He; simpl.
    + repeat split; try done; auto. all: try (intros; by eauto).
    + repeat split; try done; auto.
      * intros [_ [? ?]]. done.
      * eexists. split; [done|]. simpl. split; done.
  - repeat split; try done; auto.
    + intros [[? ?] _]. done.
    + eexists. split; [done|]. simpl. split; done.
Qed.

End Traditional.

(** ** The shared browser and its executable *)

Section SharedBrowser.
Import RealBrowser.

(** Takes a bind chain in a hypothesis apart, step by step. *)
Ltac unbind H :=
  repeat match type of H with
  | (?m ≫= ?k) ?st = _ =>
      let Hm := fresh "Hm" in
      destruct (m st) as [[?|?] ?] eqn:Hm;
        [rewrite (bind_Ok _ _ _ _ _ Hm) in H; cbn beta in H
        |rewrite (bind_Throw _ _ _ _ _ Hm) in H; try done]
  end.

Lemma emit_inv (c : BCall) (s s' : State) (u : unit) :
  emit c s = (Ok u, s') →
  trace s' = trace s ++ [c] ∧ browser s' = browser s
  ∧ lastAutoDetectChromeExecutable s' = lastAutoDetectChromeExecutable s
  ∧ heartbeat s' = heartbeat s.
Proof. unfold emit. by intros [= _ <-]. Qed.

Lemma of_result_inv {A} (r : Result A) (s s' : State) (a : A) :
  of_result r s = (Ok a, s') → r = Ok a ∧ s' = s.
Proof. destruct r; [by intros [= -> ->]|done]. Qed.

Lemma set_browser_inv (x : option Browser) (s s' : State) (u : unit) :
  set_browser x s = (Ok u, s') →
  browser s' = x ∧ trace s' = trace s
  ∧ lastAutoDetectChromeExecutable s' = lastAutoDetectChromeExecutable s
  ∧ heartbeat s' = heartbeat s.
Proof. unfold set_browser. by intros [= _ <-]. Qed.

Lemma prepare_emits (P : BCall → Prop) (E : Env) (x : option string) :
  P AptInstall → emits_only P (prepareChromeExecutable E x).
Proof.
  intros HP.
  unfold prepareChromeExecutable, installChromium, findChrome,
    findChrome_loop, get_last.
  repeat first
    [ progress intros | apply emits_only_bind | apply emits_only_ret
    | apply emits_only_throw | apply emits_only_emit
    | (apply emits_only_quiet; done) | case_match ]; done.
Qed.

Lemma launchBrowser_Ok (E : Env) (s s' : State) (b : Browser) :
  launchBrowser E s = (Ok b, s') →
  browser s' = Some b
  ∧ ∃ p, launch E p = Ok b ∧ last (trace s') = Some (Launch p)
         ∧ (length (trace s) < length (trace s'))%nat.
Proof.
  intros H. unfold launchBrowser in H. unbind H. injection H as -> <-.
  repeat match goal with
  | H : emit _ _ = (Ok _, _) |- _ => apply emit_inv in H as (? & _)
  | H : of_result _ _ = (Ok _, _) |- _ => apply of_result_inv in H as [? ->]
  | H : set_browser _ _ = (Ok _, _) |- _ =>
      apply set_browser_inv in H as (? & Hsame & _)
  end.
  split; [done|]. eexists. split; [done|]. rewrite Hsame.
  match goal with Ht : trace _ = _ ++ [_] |- _ => rewrite Ht end.
  split; [by rewrite last_snoc|].
  match goal with Hp : prepareChromeExecutable _ _ s = (_, ?s0) |- _ =>
    destruct (prepare_emits (λ _, True) E (chromeExecutable E) I s) as (l & Hl & _);
    rewrite Hp in Hl; cbn [snd] in Hl; rewrite Hl
  end.
  rewrite !length_app. simpl. lia.
Qed.

(** X9: the shared browser is a lazily launched singleton.  When
    [getBrowser()] returns a browser, that browser is in the module's
    variable; it was either already there and connected, and then nothing
    was called, or the variable held no connected browser and the browser
    comes from a launch, the last call made; and as long as it reports
    connected, every later [getBrowser()] returns it again and calls
    nothing. *)
Theorem getBrowser_is_a_lazy_singleton (E : Env) (s s' : State) (b : Browser) :
  getBrowser E s = (Ok b, s') →
  browser s' = Some b
  ∧ ((browser s = Some b ∧ isConnected E b = true ∧ s' = s)
     ∨ ((∀ b0, browser s = Some b0 → isConnected E b0 = false)
        ∧ ∃ p, launch E p = Ok b ∧ last (trace s') = Some (Launch p)
               ∧ (length (trace s) < length (trace s'))%nat))
  ∧ (∀ E', isConnected E' b = true → getBrowser E' s' = (Ok b, s')).
Proof.
  intros H.
  assert (browser s' = Some b
    ∧ ((browser s = Some b ∧ isConnected E b = true ∧ s' = s)
       ∨ ((∀ b0, browser s = Some b0 → isConnected E b0 = false)
          ∧ ∃ p, launch E p = Ok b ∧ last (trace s') = Some (Launch p)
                 ∧ (length (trace s) < length (trace s'))%nat))) as [Hvar Hhow].
  { unfold getBrowser in H.
    rewrite (bind_Ok get_browser _ s s (browser s) eq_refl) in H.
    destruct (browser s) as [b0|] eqn:Hb.
    - destruct (isConnected E b0) eqn:Hc.
      + injection H as -> ->. split; [done|]. left. by rewrite Hc.
      + destruct (launchBrowser_Ok _ _ _ _ H) as [Hvar Hp]. split; [done|].
        right. split; [|done]. by intros b1 [= <-].
    - destruct (launchBrowser_Ok _ _ _ _ H) as [Hvar Hp]. split; [done|].
      right. split; [|done]. done. }
  split; [done|]. split; [done|].
  intros E' Hlive. unfold getBrowser.
  rewrite (bind_Ok get_browser _ s' s' (browser s') eq_refl).
  by rewrite Hvar, Hlive.
Qed.

(** A Linux host whose Chromium is at [/usr/bin/chromium]; [cfg] is the
    [chromeExecutable] setting. *)
Let linux (cfg : option string) : Env :=
  {| allowedList := ["chromium"; "chromium-browser"; "google-chrome";
                     "/usr/bin/chromium"; "/usr/bin/chromium-browser";
                     "/usr/bin/google-chrome"; "/snap/bin/chromium"];
     allow_all_chrome_exec := false;
     is_container := false;
     chromeExecutable := cfg;
     commandExists := λ p, bool_decide (p = "/usr/bin/chromium");
     apt_exit_code := 0;
     isConnected := λ _, true;
     launch := λ _, Ok {| handle := 1; endpoint := None |};
     RemoteBrowser_get := λ _ _, Ok None;
     connect := λ u, Ok {| handle := 2; endpoint := Some u |};
     url_rest_valid := λ _, true;
     hmac_sha256 := hmac_examples;
     screenshotDir := "./data/screenshots/";
     videoDir := "./data/video/";
     newContext := None; newPage := None;
     goto := λ _, Ok {| status := 200; responseEnd := 12 |};
     waitForTimeout := None; screenshot := None; page_video := true;
     page_close := None; video_saveAs := None; context_close := None |}.

Let cold : State :=
  {| browser := None; lastAutoDetectChromeExecutable := None;
     heartbeat := {| hb_status := None; hb_msg := None; hb_ping := None |};
     trace := [] |}.

(** The theorem at a first [getBrowser()] on the Linux host. *)
Lemma getBrowser_is_a_lazy_singleton_witness :
  let b := {| handle := 1; endpoint := None |} in
  let s' := (getBrowser (linux None) cold).2 in
  getBrowser (linux None) s' = (Ok b, s').
Proof.
  intros b s'.
  destruct (getBrowser_is_a_lazy_singleton (linux None) cold s' b)
    as (_ & _ & H); [reflexivity|].
  apply H. reflexivity.
Defined.

(** X10: with a configured [chromeExecutable] that is not on the allow-list
    and no override, and no connected browser at hand, the check of a
    monitor without remote browser throws the not-allowed error and calls
    nothing: no executable is launched and the state is as before. *)
Theorem disallowed_executable_is_never_launched
    (E : Env) (monitor : Monitor) (jwtSecret : string) (s : State) (p : string) :
  chromeExecutable E = Some p →
  p ≠ "" →
  lower p ≠ "#playwright_chromium" →
  allow_all_chrome_exec E = false →
  p ∉ allowedList E →
  (∀ b, browser s = Some b → isConnected E b = false) →
  m_remote_browser monitor = None →
  check E monitor jwtSecret s
  = (Throw "This Chromium executable path is not allowed by default. If you are sure this is safe, please add an environment variable UPTIME_KUMA_ALLOW_ALL_CHROME_EXEC=1 to allow it.", s).
Proof.
  intros Hcfg Hne Hmark Hall Hlist Hdead Hloc.
  assert (launchBrowser E s
          = (Throw "This Chromium executable path is not allowed by default. If you are sure this is safe, please add an environment variable UPTIME_KUMA_ALLOW_ALL_CHROME_EXEC=1 to allow it.", s))
    as Hlaunch.
  { unfold launchBrowser. apply bind_Throw.
    unfold prepareChromeExecutable. rewrite Hcfg. simpl.
    rewrite bool_decide_eq_false_2 by congruence.
    rewrite (bool_decide_eq_false_2 (p = "")) by done.
    unfold isAllowedChromeExecutable. rewrite Hall.
    by rewrite bool_decide_eq_false_2. }
  unfold check. apply bind_Throw. unfold acquire. rewrite Hloc.
  unfold getBrowser. rewrite (bind_Ok get_browser _ s s (browser s) eq_refl).
  destruct (browser s) as [b|] eqn:Hb; [|done].
  by rewrite (Hdead b eq_refl).
Qed.

(** The theorem at the setting [/tmp/evil] on the Linux host. *)
Lemma disallowed_executable_is_never_launched_witness :
  (check (linux (Some "/tmp/evil"))
     {| m_id := 7; m_name := "page"; m_interval := 60; m_active := true;
        m_url := "https://a.test/"; m_remote_browser := None; m_user_id := 1 |}
     "secret" cold).2 = cold.
Proof.
  rewrite (disallowed_executable_is_never_launched (linux (Some "/tmp/evil"))
             _ "secret" cold "/tmp/evil"); try reflexivity; try discriminate.
  apply (bool_decide_unpack _). vm_compute. exact I.
Defined.

(** X11: [findChrome] returns only an executable that exists, taken from
    the cached last detection or else from the given list, and caches what
    it returns: afterwards, as long as that executable exists, every call
    returns it again, whatever list is given, and changes nothing. *)
Theorem findChrome_caches_its_result
    (E : Env) (executables : list string) (s s' : State) (p : string) :
  findChrome E executables s = (Ok p, s') →
  commandExists E p = true
  ∧ (p ∈ executables ∨ lastAutoDetectChromeExecutable s = Some p)
  ∧ lastAutoDetectChromeExecutable s' = Some p
  ∧ trace s' = trace s ∧ browser s' = browser s
  ∧ (p ≠ "" → ∀ l, findChrome E l s' = (Ok p, s')).
Proof.
  intros H.
  assert (commandExists E p = true
    ∧ (p ∈ executables ∨ lastAutoDetectChromeExecutable s = Some p)
    ∧ lastAutoDetectChromeExecutable s' = Some p
    ∧ trace s' = trace s ∧ browser s' = browser s) as (Hex & Hfrom & Hlast & Ht & Hb).
  { unfold findChrome in H.
    rewrite (bind_Ok get_last _ s s _ eq_refl) in H.
    assert (findChrome_loop E executables s = (Ok p, s') →
            commandExists E p = true ∧ p ∈ executables
            ∧ lastAutoDetectChromeExecutable s' = Some p
            ∧ trace s' = trace s ∧ browser s' = browser s) as Hloop.
    { unfold findChrome_loop.
      destruct (List.find _ _) as [x|] eqn:Hfind; [|done].
      apply find_some in Hfind as [Hin Hx]. rewrite <-list_elem_of_In in Hin.
      unfold set_last, mbind, M_bind, mret, M_ret. by intros [= <- <-]. }
    unfold truthy in H.
    destruct (lastAutoDetectChromeExecutable s) as [c|] eqn:Hc;
      [destruct (bool_decide (c = "")); [|destruct (commandExists E c) eqn:Hce]|].
    - destruct (Hloop H) as (? & ? & ? & ? & ?). auto 10.
    - injection H as -> ->. auto 10.
    - destruct (Hloop H) as (? & ? & ? & ? & ?). auto 10.
    - destruct (Hloop H) as (? & ? & ? & ? & ?). auto 10. }
  repeat split; try done.
  intros Hne l. unfold findChrome.
  rewrite (bind_Ok get_last _ s' s' _ eq_refl). rewrite Hlast. unfold truthy.
  by rewrite bool_decide_eq_false_2, Hex.
Qed.

(** The theorem at the first detection on the Linux host. *)
Lemma findChrome_caches_its_result_witness :
  let s' := (findChrome (linux None) (allowedList (linux None)) cold).2 in
  findChrome (linux None) [] s' = (Ok "/usr/bin/chromium", s').
Proof.
  intros s'.
  destruct (findChrome_caches_its_result (linux None) (allowedList (linux None))
              cold s' "/usr/bin/chromium") as (_ & _ & _ & _ & _ & H);
    [reflexivity|].
  apply H. discriminate.
Defined.

Lemma prepare_vetted (E : Env) (s s1 : State) (r : Result (option string)) :
  cache_listed E s →
  prepareChromeExecutable E (chromeExecutable E) s = (r, s1) →
  cache_listed E s1 ∧ browser s1 = browser s
  ∧ (∃ l, trace s1 = trace s ++ l ∧ Forall (vetted E) l)
  ∧ ∀ x, r = Ok x → vetted E (Launch x).
Proof.
  intros Hcache.
  unfold prepareChromeExecutable, installChromium, findChrome, findChrome_loop,
    isAllowedChromeExecutable, get_last, set_last, emit, throw,
    mbind, M_bind, mret, M_ret.
  intros H. repeat case_match; simplify_eq; simpl.
  all: repeat match goal with
       | Hf : List.find _ _ = Some _ |- _ =>
           apply find_some in Hf as [Hin ?]; rewrite <-list_elem_of_In in Hin
       end.
  all: split;
    [ first [ exact Hcache
            | intros c Hc; apply Hcache; exact Hc
            | intros c Hc; unfold truthy in Hc; simpl in Hc; case_match;
              by simplify_eq ]
    | split; [done|] ].
  all: split;
    [ first [ by exists []; rewrite app_nil_r | by exists [AptInstall]; repeat constructor ]
    | intros x Hx; simplify_eq; simpl; try done ].
  all: first
    [ by left
    | by right; right
    | right; left; assumption
    | right; left; by apply Hcache
    | right; left;
      match goal with Hn : negb (bool_decide _) = false |- _ =>
        apply negb_false_iff in Hn; by apply bool_decide_eq_true in Hn
      end ].
Qed.

Section Preserves.
Context {X : Type} (proj : State → X).

Lemma preserves_ret {A} (a : A) : preserves proj (mret a : M A).
Proof. done. Qed.

Lemma preserves_throw {A} (e : string) : preserves proj (throw e : M A).
Proof. done. Qed.

Lemma preserves_bind {A B} (m : M A) (k : A → M B) :
  preserves proj m → (∀ a, preserves proj (k a)) → preserves proj (m ≫= k).
Proof.
  intros Hm Hk s. specialize (Hm s).
  destruct (m s) as [[a|e] s0] eqn:Hms; simpl in Hm.
  - rewrite (bind_Ok _ _ _ _ _ Hms). by rewrite Hk.
  - by rewrite (bind_Throw _ _ _ _ _ Hms).
Qed.

Lemma preserves_of_result {A} (r : Result A) : preserves proj (of_result r).
Proof. by destruct r. Qed.

Lemma preserves_may_throw (c : BCall) (o : option string) :
  preserves proj (emit c) → preserves proj (may_throw c o).
Proof. intros Hc. apply preserves_bind; [done|]. intros _. by destruct o. Qed.

Lemma preserves_try_log (m : M unit) :
  preserves proj m → preserves proj (try_log m).
Proof.
  intros Hm s. specialize (Hm s). unfold try_log.
  by destruct (m s) as [[[]|e] s0].
Qed.

End Preserves.

(** X12: as long as the cached detection is on the allow-list, which holds
    at start-up, a check launches an executable path only if the override
    is set, the path is on the allow-list, or the process runs in a
    container and the path is [/usr/bin/chromium]; and the cached detection
    is on the allow-list again after the check, so this holds for every
    check of a process. *)
Theorem check_launches_only_vetted_executables
    (E : Env) (monitor : Monitor) (jwtSecret : string) (s : State) :
  cache_listed E s →
  let s' := (check E monitor jwtSecret s).2 in
  cache_listed E s'
  ∧ ∃ l, trace s' = trace s ++ l ∧ Forall (vetted E) l.
Proof.
  intros Hcache s'.
  assert (∀ r s1, launchBrowser E s = (r, s1) →
            cache_listed E s1 ∧ ∃ l, trace s1 = trace s ++ l ∧ Forall (vetted E) l)
    as Hlaunch.
  { intros r s1. unfold launchBrowser.
    destruct (prepareChromeExecutable E (chromeExecutable E) s) as [rp sp] eqn:Hp.
    destruct (prepare_vetted E s sp rp Hcache Hp) as (Hc & _ & (l & Hl & Hv) & Hx).
    destruct rp as [x|e].
    - rewrite (bind_Ok _ _ _ _ _ Hp).
      unfold emit, of_result, set_browser, throw, mbind, M_bind, mret, M_ret.
      destruct (launch E x); intros [= <- <-]; simpl; (split; [exact Hc|]);
        exists (l ++ [Launch x]); rewrite Hl, app_assoc;
        (split; [done|]); apply Forall_app; split; try done;
        constructor; [by apply Hx|constructor | by apply Hx | constructor].
    - rewrite (bind_Throw _ _ _ _ _ Hp). intros [= <- <-]. eauto. }
  assert (∀ r s1, acquire E monitor s = (r, s1) →
            cache_listed E s1 ∧ ∃ l, trace s1 = trace s ++ l ∧ Forall (vetted E) l)
    as Hacq.
  { intros r s1. unfold acquire.
    assert (∀ r s1, getBrowser E s = (r, s1) →
              cache_listed E s1 ∧ ∃ l, trace s1 = trace s ++ l ∧ Forall (vetted E) l)
      as Hget.
    { clear r s1. intros r s1. unfold getBrowser.
      rewrite (bind_Ok get_browser _ s s (browser s) eq_refl).
      destruct (browser s) as [b|]; [destruct (isConnected E b)|]; try apply Hlaunch.
      intros [= <- <-]. split; [done|]. exists []. by rewrite app_nil_r. }
    destruct (m_remote_browser monitor) as [rb|]; [|apply Hget].
    destruct (bool_decide (rb = 0)); [apply Hget|].
    unfold getRemoteBrowser, of_result, emit, set_browser, throw,
      mbind, M_bind, mret, M_ret.
    destruct (RemoteBrowser_get E rb (m_user_id monitor)) as [[row|]|e];
      [destruct (connect E (rb_url row))|..]; intros [= <- <-]; simpl;
      (split; [exact Hcache|]);
      first [ by exists []; rewrite app_nil_r
            | by exists [Connect (rb_url row)]; repeat constructor ]. }
  unfold s', check.
  pose proof (Hacq (acquire E monitor s).1 (acquire E monitor s).2
                ltac:(by destruct (acquire E monitor s))) as Hacq'.
  clear Hacq Hlaunch.
  destruct (acquire E monitor s) as [[b|e] s1] eqn:Ha;
    cbn [fst snd] in Hacq'; destruct Hacq' as (Hc1 & l1 & Hl1 & Hv1).
  2:{ rewrite (bind_Throw _ _ _ _ _ Ha). eauto. }
  rewrite (bind_Ok _ _ _ _ _ Ha). cbn beta.
  match goal with |- cache_listed E (?m s1).2 ∧ _ =>
    assert (preserves lastAutoDetectChromeExecutable m) as Hkeep;
    [|assert (emits_only (vetted E) m) as Hem]
  end.
  - unfold new_URL, saveVideo.
    repeat first
      [ progress intros | apply preserves_bind | apply preserves_ret
      | apply preserves_throw | apply preserves_of_result
      | (apply preserves_may_throw; intros ?; reflexivity)
      | apply preserves_try_log | (intros ?; reflexivity) | case_match ].
  - unfold new_URL, saveVideo, set_heartbeat.
    repeat first
      [ progress intros | apply emits_only_bind | apply emits_only_ret
      | apply emits_only_throw | apply emits_only_of_result
      | apply emits_only_may_throw | apply emits_only_emit
      | apply emits_only_try_log | (apply emits_only_quiet; done)
      | case_match ]; done.
  - split.
    + unfold cache_listed. rewrite Hkeep. exact Hc1.
    + destruct (Hem s1) as (l2 & Hl2 & Hv2). exists (l1 ++ l2).
      rewrite Hl2, Hl1, app_assoc. split; [done|]. by apply Forall_app.
Qed.

(** The theorem at the first check on the Linux host. *)
Lemma check_launches_only_vetted_executables_witness :
  cache_listed (linux None)
    (check (linux None)
       {| m_id := 7; m_name := "page"; m_interval := 60; m_active := true;
          m_url := "https://a.test/"; m_remote_browser := None; m_user_id := 1 |}
       "secret" cold).2.
Proof.
  destruct (check_launches_only_vetted_executables (linux None)
              {| m_id := 7; m_name := "page"; m_interval := 60; m_active := true;
                 m_url := "https://a.test/"; m_remote_browser := None;
                 m_user_id := 1 |} "secret" cold) as [H _].
  - intros c Hc. discriminate.
  - exact H.
Defined.

End SharedBrowser.
